(** * netadapters: correlation registry, listener adapter and relay router

    A shallow embedding of
      - pkg/http/server.go   (ServerAdapter.handleRequest, responseWriter,
                              the global response-writer registry),
      - pkg/http/client.go   (ClientEmitter.Emit),
      - examples/relay-node/main.go (processEvent, forwardRequest),
      - the instrumented single-route relay (its forwardRequest),
    together with the properties the specification states about them.

    Conventions.  A Go [string] and a Go [[]byte] are both byte sequences and
    are modelled by [string] (a list of 8-bit [ascii]).  A Go
    [map[string]string] is a [gmap string string]; where the source ranges
    over such a map the iteration order, which Go leaves unspecified, is an
    explicit argument.  A Go [int] is a 64-bit two's complement integer and
    an [atomic.Uint64] a 64-bit unsigned one; both live in [Z] with the
    wrap-around written out.  Wall-clock fields ([Timestamp], [Duration]),
    log lines and the Prometheus mirrors of the counters carry no control
    flow and are left out. *)

From stdpp Require Import gmap strings list fin_maps pretty.
From Stdlib Require Import ZArith Ascii String Lia.

Local Open Scope string_scope.
Local Open Scope Z_scope.

(** ** Go primitives used by the source *)

Module Go.

Definition minInt : Z := - 2 ^ 63.
Definition maxInt : Z := 2 ^ 63 - 1.

(** Two's complement wrap-around of a 64-bit [int]. *)
Definition wrapInt (z : Z) : Z := (z + 2 ^ 63) mod 2 ^ 64 - 2 ^ 63.

(** Wrap-around of a [uint64]. *)
Definition wrapUint64 (z : Z) : Z := z mod 2 ^ 64.

Definition isDigit (c : ascii) : bool :=
  let n := nat_of_ascii c in ((48 <=? n) && (n <=? 57))%nat.

Definition digitVal (c : ascii) : Z := Z.of_nat (nat_of_ascii c) - 48.

Fixpoint parseDigits (acc : Z) (s : string) : option Z :=
  match s with
  | EmptyString => Some acc
  | String c s' =>
      if isDigit c then parseDigits (acc * 10 + digitVal c) s' else None
  end.

(** [strconv.Atoi]: an optional sign, then one or more decimal digits and
    nothing else; a value outside the [int] range is an error. *)
Definition Atoi (s : string) : option Z :=
  let '(neg, ds) :=
    match s with
    | String "+" r => (false, r)
    | String "-" r => (true, r)
    | _ => (false, s)
    end in
  match ds with
  | EmptyString => None
  | _ =>
      match parseDigits 0 ds with
      | None => None
      | Some n =>
          let v := if neg then - n else n in
          if (minInt <=? v) && (v <=? maxInt) then Some v else None
      end
  end.

(** [strconv.Itoa]: the decimal rendering of an [int]. *)
Definition Itoa (z : Z) : string := pretty z.

(** [len(b) > 0] on a byte slice. *)
Definition nonEmpty (b : string) : bool :=
  match b with EmptyString => false | _ => true end.

(** The token bytes of an HTTP header field name (net/textproto). *)
Definition validHeaderFieldByte (c : ascii) : bool :=
  let n := nat_of_ascii c in
  (((48 <=? n) && (n <=? 57)) || ((65 <=? n) && (n <=? 90))
   || ((97 <=? n) && (n <=? 122))
   || bool_decide (n ∈ [33; 35; 36; 37; 38; 39; 42; 43; 45; 46; 94; 95; 96; 124; 126]))%nat.

Definition isLower (c : ascii) : bool :=
  let n := nat_of_ascii c in ((97 <=? n) && (n <=? 122))%nat.
Definition isUpper (c : ascii) : bool :=
  let n := nat_of_ascii c in ((65 <=? n) && (n <=? 90))%nat.

Fixpoint allBytes (p : ascii → bool) (s : string) : bool :=
  match s with
  | EmptyString => true
  | String c s' => p c && allBytes p s'
  end.

(** First letter and every letter after a dash in upper case, the other
    letters in lower case. *)
Fixpoint canonLoop (upper : bool) (s : string) : string :=
  match s with
  | EmptyString => EmptyString
  | String c s' =>
      let c' :=
        if upper && isLower c then ascii_of_nat (nat_of_ascii c - 32)
        else if negb upper && isUpper c then ascii_of_nat (nat_of_ascii c + 32)
        else c in
      String c' (canonLoop (bool_decide (c' = "-"%char)) s')
  end.

(** [textproto.CanonicalMIMEHeaderKey], which [http.Header.Set] applies to
    its key: a key holding a byte that is no token byte is left as it is. *)
Definition CanonicalMIMEHeaderKey (s : string) : string :=
  if allBytes validHeaderFieldByte s then canonLoop true s else s.

(** [http.Header]: canonical key to list of values. *)
Definition Header_Set (k v : string) (h : gmap string (list string))
  : gmap string (list string) :=
  <[CanonicalMIMEHeaderKey k := [v]]> h.

(** [strings.Split(s, sep)] for a separator of one byte: the pieces between
    the separators, one more than there are separators. *)
Fixpoint Split (sep : ascii) (s : string) : list string :=
  match s with
  | EmptyString => [EmptyString]
  | String c s' =>
      if bool_decide (c = sep) then EmptyString :: Split sep s'
      else match Split sep s' with
           | x :: xs => String c x :: xs
           | [] => [String c EmptyString]
           end
  end.

(** [strings.Trim(s, cutset)] for a cutset of one byte. *)
Fixpoint TrimLeftByte (b : ascii) (s : string) : string :=
  match s with
  | String c s' => if bool_decide (c = b) then TrimLeftByte b s' else s
  | EmptyString => EmptyString
  end.
Fixpoint TrimRightByte (b : ascii) (s : string) : string :=
  match s with
  | String c s' =>
      match TrimRightByte b s' with
      | EmptyString => if bool_decide (c = b) then EmptyString else String c EmptyString
      | t => String c t
      end
  | EmptyString => EmptyString
  end.
Definition Trim (b : ascii) (s : string) : string :=
  TrimRightByte b (TrimLeftByte b s).

(** [strings.HasPrefix(s, p)] and [strings.TrimPrefix(s, p)] for a prefix of
    one byte. *)
Definition HasPrefixByte (b : ascii) (s : string) : bool :=
  match s with
  | String c _ => bool_decide (c = b)
  | EmptyString => false
  end.
Definition TrimPrefixByte (b : ascii) (s : string) : string :=
  match s with
  | String c s' => if bool_decide (c = b) then s' else s
  | EmptyString => EmptyString
  end.

(** [os.Getenv] on an environment: the empty string for an unset key. *)
Definition Getenv (env : gmap string string) (key : string) : string :=
  default "" (env !! key).

End Go.


(** ** Event payloads of pkg/http *)

Module Request.
(** [HTTPRequestPayload] *)
Record Payload := {
  RequestID : string;
  Method : string;
  Path : string;
  Query : gmap string string;
  Headers : gmap string string;
  Body : string;
  RemoteAddr : string;
  LocalAddr : string;
  TLS : bool
}.
End Request.

Module Response.
(** [HTTPResponsePayload] *)
Record Payload := {
  RequestID : string;
  StatusCode : Z;
  Headers : gmap string string;
  Body : string
}.
End Response.

(** An [event.Event] of the external bus.  The codec is an external
    collaborator: [Data] is what [DecodePayload] yields for the payload type
    [P], [None] when decoding fails. *)
Record Event (P : Type) := mkEvent {
  Type_ : string;
  Source : string;
  Metadata : gmap string string;
  Data : option P
}.
Arguments mkEvent {P}.
Arguments Type_ {P}.
Arguments Source {P}.
Arguments Metadata {P}.
Arguments Data {P}.

(** [evt.WithMetadata(k, v)] *)
Definition WithMetadata {P} (k v : string) (e : Event P) : Event P :=
  mkEvent (Type_ e) (Source e) (<[k := v]> (Metadata e)) (Data e).

(** [event.NewEvent(type, source, payload, codec)] when encoding succeeds. *)
Definition NewEvent {P} (ty src : string) (payload : P) : Event P :=
  mkEvent ty src ∅ (Some payload).

(** An outbound HTTP request as built by [http.NewRequest] and the
    [req.Header.Set] calls that follow it. *)
Record HTTPRequest := {
  reqMethod : string;
  reqURL : string;
  reqHeader : gmap string (list string);
  reqBody : string
}.

(** The network as the relay sees it: whether [http.NewRequest] accepts a
    URL, and what [relayClient.Do] answers ([None] for a transport error,
    otherwise the status code of the next hop). *)
Record Net := {
  urlParses : string → bool;
  Do : HTTPRequest → option Z
}.

(** ** examples/relay-node/main.go *)

Module Relay.

(** [AdapterStats]; [Stats] is a second struct with the same four
    counters. *)
Record AdapterStats := {
  received : Z;
  forwarded : Z;
  dropped : Z;
  errors : Z
}.
Definition Stats := AdapterStats.

Definition zeroStats : AdapterStats :=
  {| received := 0; forwarded := 0; dropped := 0; errors := 0 |}.

(** [adapterRoute]; [stats] is the address of the route's [AdapterStats]. *)
Record adapterRoute := {
  id : string;
  listenAddr : string;
  nextHop : string;
  stats : nat
}.

(** What [main] has fixed before the workers start.  [main] exits with
    "no adapters configured" when [routesInOrder] is empty, so the list is
    kept as its head and its tail. *)
Record Config := {
  adapterRoutes : gmap string adapterRoute;
  route0 : adapterRoute;
  routesRest : list adapterRoute;
  maxHops : Z;
  nodeName : string
}.
Definition routesInOrder (cfg : Config) : list adapterRoute :=
  route0 cfg :: routesRest cfg.

(** The counters: [totalStats] and the store of the routes'
    [AdapterStats], a missing cell being the zero value. *)
Record State := {
  totalStats : Stats;
  routeStats : gmap nat AdapterStats
}.

Definition statsOf (st : State) (r : adapterRoute) : AdapterStats :=
  default zeroStats (routeStats st !! stats r).

Definition incReceived (s : AdapterStats) : AdapterStats :=
  {| received := Go.wrapUint64 (received s + 1); forwarded := forwarded s;
     dropped := dropped s; errors := errors s |}.
Definition incForwarded (s : AdapterStats) : AdapterStats :=
  {| received := received s; forwarded := Go.wrapUint64 (forwarded s + 1);
     dropped := dropped s; errors := errors s |}.
Definition incDropped (s : AdapterStats) : AdapterStats :=
  {| received := received s; forwarded := forwarded s;
     dropped := Go.wrapUint64 (dropped s + 1); errors := errors s |}.
Definition incErrors (s : AdapterStats) : AdapterStats :=
  {| received := received s; forwarded := forwarded s;
     dropped := dropped s; errors := Go.wrapUint64 (errors s + 1) |}.

(** [totalStats.x.Add(1); route.stats.x.Add(1)] *)
Definition bump (f : AdapterStats → AdapterStats) (r : adapterRoute)
    (st : State) : State :=
  {| totalStats := f (totalStats st);
     routeStats := <[stats r := f (statsOf st r)]> (routeStats st) |}.

Inductive Effect :=
| Publish (e : Event Response.Payload)
| GoForward (r : adapterRoute) (p : Request.Payload) (hc : Z).

(** The hop count of an inbound payload (main.go:253-258). *)
Definition hopCountOf (payload : Request.Payload) : Z :=
  match Request.Headers payload !! "X-Hop-Count" with
  | Some hopHeader =>
      match Go.Atoi hopHeader with
      | Some h => Go.wrapInt (h + 1)
      | None => 1
      end
  | None => 1
  end.

(** The response published for a dropped request (main.go:268-277). *)
Definition dropResponse (cfg : Config) (payload : Request.Payload)
  : Event Response.Payload :=
  WithMetadata "request_id" (Request.RequestID payload)
    (NewEvent "net.http.response" (nodeName cfg)
       {| Response.RequestID := Request.RequestID payload;
          Response.StatusCode := 200;
          Response.Headers := {["Content-Type" := "text/plain"]};
          Response.Body := "Max hops reached at " ++ nodeName cfg |}).

(** The local acknowledgement of a relayed request (main.go:295-313). *)
Definition ackResponse (cfg : Config) (payload : Request.Payload)
    (hopCount : Z) : Event Response.Payload :=
  WithMetadata "request_id" (Request.RequestID payload)
    (NewEvent "net.http.response" (nodeName cfg)
       {| Response.RequestID := Request.RequestID payload;
          Response.StatusCode := 200;
          Response.Headers :=
            <["Content-Type" := "text/plain"]>
              (<["X-Relay-Node" := nodeName cfg]>
                 {["X-Hop-Count" := Go.Itoa hopCount]});
          Response.Body :=
            "Relayed by " ++ nodeName cfg ++ " (hop " ++ Go.Itoa hopCount ++ ")" |}).

(** The route of an event (main.go:226-230): the one registered under the
    event's [adapter_id], otherwise [routesInOrder[0]].  A missing
    metadata key reads as the empty string. *)
Definition routeFor (cfg : Config) (evt : Event Request.Payload) : adapterRoute :=
  let adapterID := default "" (Metadata evt !! "adapter_id") in
  default (route0 cfg) (adapterRoutes cfg !! adapterID).

(** [processEvent] (main.go:225-314).  [respEventErr] tells whether
    [event.NewEvent] fails for the acknowledgement, the one place where
    the source looks at that error; the effects are listed in program
    order. *)
Definition processEvent (cfg : Config) (respEventErr : bool)
    (evt : Event Request.Payload) (st : State) : list Effect * State :=
  let route := routeFor cfg evt in
  let st := bump incReceived route st in
  match Data evt with
  | None => ([], bump incErrors route st)
  | Some payload =>
      let hopCount := hopCountOf payload in
      if maxHops cfg <? hopCount then
        ([Publish (dropResponse cfg payload)], bump incDropped route st)
      else
        let fwd := GoForward route payload hopCount in
        if respEventErr then ([fwd], st)
        else ([fwd; Publish (ackResponse cfg payload hopCount)], st)
  end.

Inductive ForwardResult :=
| CreateFailed
| Sent (req : HTTPRequest) (resp : option Z).

(** [forwardRequest] (main.go:363-393).  [iter] is the order in which
    [range payload.Headers] yields the entries. *)
Definition forwardRequest (net : Net) (iter : list (string * string))
    (nextHop : string) (payload : Request.Payload) (hopCount : Z)
    (nodeName : string) : ForwardResult :=
  let prefix := "[" ++ nodeName ++ "→hop" ++ Go.Itoa hopCount ++ "] " in
  let url := nextHop ++ Request.Path payload in
  if negb (urlParses net url) then CreateFailed
  else
    let h := foldl (λ h kv, Go.Header_Set kv.1 kv.2 h) ∅ iter in
    let h := Go.Header_Set "X-Hop-Count" (Go.Itoa hopCount) h in
    let h := Go.Header_Set "X-Relay-Node" nodeName h in
    let req := {| reqMethod := "POST"; reqURL := url; reqHeader := h;
                  reqBody := prefix ++ Request.Body payload |} in
    Sent req (Do net req).

(** The error [forwardRequest] returns: only a failed request creation or
    a transport error. *)
Definition forwardFailed (r : ForwardResult) : bool :=
  match r with
  | CreateFailed => true
  | Sent _ None => true
  | Sent _ (Some _) => false
  end.

(** The goroutine spawned for a forward (main.go:281-293). *)
Definition forwardTask (net : Net) (iter : list (string * string))
    (cfg : Config) (r : adapterRoute) (p : Request.Payload) (hc : Z)
    (st : State) : ForwardResult * State :=
  let res := forwardRequest net iter (nextHop r) p hc (nodeName cfg) in
  (res, bump (if forwardFailed res then incErrors else incForwarded) r st).

(** Number of forward goroutines an effect list starts. *)
Definition isForward (e : Effect) : bool :=
  match e with GoForward _ _ _ => true | Publish _ => false end.
Definition forwardCalls (es : list Effect) : nat :=
  List.length (List.filter isForward es).

(** [getEnv] and [getEnvInt] (main.go:395-409). *)
Definition getEnv (env : gmap string string) (key def : string) : string :=
  let v := Go.Getenv env key in
  if bool_decide (v ≠ "") then v else def.

Definition getEnvInt (env : gmap string string) (key : string) (def : Z) : Z :=
  let v := Go.Getenv env key in
  if bool_decide (v ≠ "") then
    match Go.Atoi v with
    | Some i => i
    | None => def
    end
  else def.

(** [parseCSV] (main.go:411-423).  [TrimSpace] is [strings.TrimSpace]. *)
Definition parseCSV (TrimSpace : string → string) (value : string) : list string :=
  if bool_decide (TrimSpace value = "") then []
  else
    foldl (λ (out : list string) p,
             let trimmed := TrimSpace p in
             if bool_decide (trimmed ≠ "") then (out ++ [trimmed])%list else out)
          [] (Go.Split "," value).

(** The next hop of each adapter port (main.go:76-84). *)
Definition nextHops (TrimSpace : string → string) (adapterPorts rawNextHops : list string)
    (defaultNextHop : string) : list string :=
  imap (λ i _,
          match rawNextHops !! i with
          | Some h =>
              if bool_decide (TrimSpace h ≠ "") then TrimSpace h else defaultNextHop
          | None => defaultNextHop
          end) adapterPorts.

(** One turn of the loop that registers the adapters (main.go:156-181):
    [acc] holds [adapterRoutes] and [routesInOrder].  The route's ID is
    that of [NewServerAdapter(port)]; its [AdapterStats] is a new object,
    whose address is taken to be the number of routes made so far.
    [nextHopList] is as long as [adapterPorts], so the index is in range;
    outside it the model reads the empty string. *)
Definition addRoute (TrimSpace : string → string) (nextHopList : list string)
    (acc : gmap string adapterRoute * list adapterRoute) (i : nat) (port : string)
  : gmap string adapterRoute * list adapterRoute :=
  let port := TrimSpace port in
  if bool_decide (port = "") then acc
  else
    let route := {| id := "http-server-" ++ port; listenAddr := port;
                    nextHop := default "" (nextHopList !! i);
                    stats := List.length acc.2 |} in
    (<[id route := route]> acc.1, (acc.2 ++ [route])%list).

Fixpoint buildRoutesFrom (TrimSpace : string → string) (nextHopList : list string)
    (i : nat) (adapterPorts : list string)
    (acc : gmap string adapterRoute * list adapterRoute)
  : gmap string adapterRoute * list adapterRoute :=
  match adapterPorts with
  | [] => acc
  | port :: rest =>
      buildRoutesFrom TrimSpace nextHopList (S i) rest
        (addRoute TrimSpace nextHopList acc i port)
  end.

Definition buildRoutes (TrimSpace : string → string)
    (adapterPorts nextHopList : list string)
  : gmap string adapterRoute * list adapterRoute :=
  buildRoutesFrom TrimSpace nextHopList 0 adapterPorts (∅, []).

(** What the loop keeps true of [adapterRoutes] and [routesInOrder]: the
    k-th route owns the k-th counters, listens on a named port, has a next
    hop and carries the ID of its adapter; every route is found in the map
    under its ID, by a route on the same port; the map holds nothing
    else. *)
Definition routesOk (acc : gmap string adapterRoute * list adapterRoute) : Prop :=
  (∀ k r, acc.2 !! k = Some r →
          stats r = k ∧ listenAddr r ≠ "" ∧ nextHop r ≠ "" ∧
          id r = "http-server-" ++ listenAddr r) ∧
  (∀ r, r ∈ acc.2 →
        ∃ r', acc.1 !! id r = Some r' ∧ listenAddr r' = listenAddr r) ∧
  (∀ key r, acc.1 !! key = Some r → id r = key ∧ r ∈ acc.2).

(** How [main] comes up (main.go:63-185) as far as the environment decides
    it: a fatal exit, or the configuration the workers run with and their
    number. *)
Inductive Startup :=
| Fatal (msg : string)
| Ready (cfg : Config) (workerCount : Z).

Definition loadConfig (TrimSpace : string → string) (env : gmap string string)
  : Startup :=
  let adapterPorts := parseCSV TrimSpace (getEnv env "ADAPTER_PORTS" "") in
  let adapterPorts :=
    match adapterPorts with
    | [] => [getEnv env "LISTEN_ADDR" ":8080"]
    | _ => adapterPorts
    end in
  let defaultNextHop := getEnv env "NEXT_HOP" "" in
  if bool_decide (defaultNextHop = "") then
    Fatal "NEXT_HOP environment variable required"
  else
    let rawNextHops := parseCSV TrimSpace (getEnv env "NEXT_HOPS" "") in
    let nextHopList := nextHops TrimSpace adapterPorts rawNextHops defaultNextHop in
    let maxHops := getEnvInt env "MAX_HOPS" 10 in
    let workerCount :=
      getEnvInt env "WORKER_COUNT" (Z.of_nat (List.length adapterPorts)) in
    let workerCount := if workerCount <? 1 then 1 else workerCount in
    let nodeName := getEnv env "NODE_NAME" "pipeline-node" in
    let built := buildRoutes TrimSpace adapterPorts nextHopList in
    match built.2 with
    | [] => Fatal "no adapters configured"
    | r0 :: rest =>
        Ready {| adapterRoutes := built.1; route0 := r0; routesRest := rest;
                 maxHops := maxHops; nodeName := nodeName |} workerCount
    end.

(** The forward goroutines of an effect list run to completion.  [order]
    gives, for each payload, the order in which [range payload.Headers]
    yields its entries. *)
Definition settle (net : Net) (order : Request.Payload → list (string * string))
    (cfg : Config) (es : list Effect) (st : State) : State :=
  foldl (λ st e,
           match e with
           | GoForward r p hc => (forwardTask net (order p) cfg r p hc st).2
           | Publish _ => st
           end) st es.

(** One event taken off the subscription by a worker, with the forward it
    starts run to completion; and a stream of such events. *)
Definition handleEvent (net : Net) (order : Request.Payload → list (string * string))
    (cfg : Config) (respEventErr : bool) (st : State)
    (evt : Event Request.Payload) : State :=
  let out := processEvent cfg respEventErr evt st in
  settle net order cfg out.1 out.2.

Definition handleEvents (net : Net) (order : Request.Payload → list (string * string))
    (cfg : Config) (respEventErr : bool) (evts : list (Event Request.Payload))
    (st : State) : State :=
  foldl (handleEvent net order cfg respEventErr) st evts.

(** Every received event is accounted for once: the counters agree modulo
    2^64. *)
Definition balanced (s : AdapterStats) : Prop :=
  Go.wrapUint64 (received s)
    = Go.wrapUint64 (forwarded s + dropped s + errors s).

End Relay.

(** ** The instrumented single-route relay *)

Module RelayInstrumented.

Inductive ForwardResult :=
| CreateFailed
| Sent (req : HTTPRequest) (resp : option Z).

(** [forwardRequest] of the instrumented relay: as [Relay.forwardRequest],
    and it also sets [X-Original-Request-ID] and extends the
    [X-Visited-Nodes] trail. *)
Definition forwardRequest (net : Net) (iter : list (string * string))
    (nextHop : string) (payload : Request.Payload) (hopCount : Z)
    (nodeName : string) : ForwardResult :=
  let relayBody :=
    "[" ++ nodeName ++ "→hop" ++ Go.Itoa hopCount ++ "] " ++ Request.Body payload in
  let url := nextHop ++ Request.Path payload in
  if negb (urlParses net url) then CreateFailed
  else
    let h := foldl (λ h kv, Go.Header_Set kv.1 kv.2 h) ∅ iter in
    let h := Go.Header_Set "X-Hop-Count" (Go.Itoa hopCount) h in
    let h := Go.Header_Set "X-Relay-Node" nodeName h in
    let h := Go.Header_Set "X-Original-Request-ID" (Request.RequestID payload) h in
    let visitedNodes := default "" (Request.Headers payload !! "X-Visited-Nodes") in
    let h :=
      if bool_decide (visitedNodes = "")
      then Go.Header_Set "X-Visited-Nodes" nodeName h
      else Go.Header_Set "X-Visited-Nodes" (visitedNodes ++ "," ++ nodeName) h in
    let req := {| reqMethod := "POST"; reqURL := url; reqHeader := h;
                  reqBody := relayBody |} in
    Sent req (Do net req).

(** The error it returns: creation failure, transport error, or a status
    other than 200. *)
Definition forwardFailed (r : ForwardResult) : bool :=
  match r with
  | CreateFailed => true
  | Sent _ None => true
  | Sent _ (Some code) => negb (code =? 200)
  end.

(** [updateMin] and [updateMax]: the compare-and-swap loop ends with the
    store of [value], or without a store, decided on the value it read
    last; that is one atomic step on the counter. *)
Definition updateMin (current value : Z) : Z :=
  if negb (current =? 0) && (current <=? value) then current else value.

(** [truncate]; [None] when the slice expression [s[:maxLen]] panics. *)
Definition truncate (s : string) (maxLen : Z) : option string :=
  if Z.of_nat (String.length s) <=? maxLen then Some s
  else if maxLen <? 0 then None
  else Some (substring 0 (Z.to_nat maxLen) s ++ "...").

End RelayInstrumented.

(** ** pkg/http/server.go and pkg/http/client.go *)

Module Server.

(** A call made on an [http.ResponseWriter]. *)
Inductive WriterCall :=
| HeaderSet (k v : string)          (* w.Header().Set(k, v) *)
| WriteHeader (code : Z)            (* w.WriteHeader(code) *)
| Write (b : string)                (* w.Write(b) *)
| Error (msg : string) (code : Z).  (* http.Error(w, msg, code) *)

(** The [http.ResponseWriter] of one connection: the calls made on it so
    far, oldest first, and whether its [Write] reports an error. *)
Record ResponseWriter := {
  calls : list WriterCall;
  writeFails : bool
}.

(** [responseWriter], the pending-response handle.  [w] is the address of
    the connection's writer, [done] tells whether the channel is closed;
    [mu] makes [WriteResponse] one atomic step. *)
Record responseWriter := {
  w : nat;
  requestID : string;
  written : bool;
  done : bool
}.

(** The shared memory: the connections' writers, the allocated handles,
    the registry [globalResponseWriters] from request ID to the address
    of a handle, and the events the bus has accepted. *)
Record World := {
  writers : list ResponseWriter;
  handles : list responseWriter;
  globalResponseWriters : gmap string nat;
  bus : list (Event Request.Payload)
}.

Inductive error :=
| Errorf (msg : string)
| WriteError        (* the error of the underlying [Write] *)
| DecodeError       (* "failed to decode payload: ..." *)
| InvalidHandle.    (* an address that is no handle; no Go pointer is *)

Definition setWriters (ws : list ResponseWriter) (σ : World) : World :=
  {| writers := ws; handles := handles σ;
     globalResponseWriters := globalResponseWriters σ; bus := bus σ |}.
Definition setHandles (hs : list responseWriter) (σ : World) : World :=
  {| writers := writers σ; handles := hs;
     globalResponseWriters := globalResponseWriters σ; bus := bus σ |}.
Definition setRegistry (g : gmap string nat) (σ : World) : World :=
  {| writers := writers σ; handles := handles σ;
     globalResponseWriters := g; bus := bus σ |}.
Definition setBus (b : list (Event Request.Payload)) (σ : World) : World :=
  {| writers := writers σ; handles := handles σ;
     globalResponseWriters := globalResponseWriters σ; bus := b |}.

Definition record (k : WriterCall) (rw : ResponseWriter) : ResponseWriter :=
  {| calls := calls rw ++ [k]; writeFails := writeFails rw |}.

(** One call on the writer at address [c]. *)
Definition call (c : nat) (k : WriterCall) (σ : World) : World :=
  setWriters (alter (record k) c (writers σ)) σ.

Definition writeFailsAt (c : nat) (σ : World) : bool :=
  default false (writeFails <$> writers σ !! c).

Definition callsAt (c : nat) (σ : World) : list WriterCall :=
  default [] (calls <$> writers σ !! c).

(** [globalResponseWriters.Store], [.Delete] and [GetResponseWriter]. *)
Definition Store (id : string) (l : nat) (σ : World) : World :=
  setRegistry (<[id := l]> (globalResponseWriters σ)) σ.
Definition Delete (id : string) (σ : World) : World :=
  setRegistry (delete id (globalResponseWriters σ)) σ.
Definition GetResponseWriter (id : string) (σ : World) : option nat :=
  globalResponseWriters σ !! id.

(** [responseWriter.WriteResponse] (server.go:196-223) on the handle at
    address [l]; [iter] is the order in which [range headers] yields the
    entries. *)
Definition WriteResponse (l : nat) (statusCode : Z)
    (iter : list (string * string)) (body : string) (σ : World)
  : option error * World :=
  match handles σ !! l with
  | None => (Some InvalidHandle, σ)
  | Some rw =>
      if written rw then (Some (Errorf "response already written"), σ)
      else
        let σ := foldl (λ σ kv, call (w rw) (HeaderSet kv.1 kv.2) σ) σ iter in
        let σ := call (w rw) (WriteHeader statusCode) σ in
        let finish (σ : World) :=
          (None,
           setHandles (<[l := {| w := w rw; requestID := requestID rw;
                                 written := true; done := true |}]> (handles σ)) σ) in
        if Go.nonEmpty body then
          let failed := writeFailsAt (w rw) σ in
          let σ := call (w rw) (Write body) σ in
          if failed then (Some WriteError, σ) else finish σ
        else finish σ
  end.

(** [ClientEmitter.Emit] (client.go): decode, look the handle up by
    request ID, write. *)
Definition Emit (evt : Event Response.Payload)
    (iter : list (string * string)) (σ : World) : option error * World :=
  match Data evt with
  | None => (Some DecodeError, σ)
  | Some payload =>
      match GetResponseWriter (Response.RequestID payload) σ with
      | None =>
          (Some (Errorf ("no response writer found for request ID "
                         ++ Response.RequestID payload)), σ)
      | Some l =>
          WriteResponse l (Response.StatusCode payload) iter
            (Response.Body payload) σ
      end
  end.

(** [ServerAdapter] and its [ID]. *)
Record ServerAdapter := { addr : string }.
Definition ID (a : ServerAdapter) : string := "http-server-" ++ addr a.

(** The inbound [*http.Request]; [inBody = None] when [io.ReadAll]
    fails. *)
Record Inbound := {
  inMethod : string;
  inPath : string;
  inQuery : gmap string (list string);
  inHeader : gmap string (list string);
  inBody : option string;
  inRemoteAddr : string;
  inTLS : bool
}.

(** What the collaborators answer during one [handleRequest]: the UUID
    minted, whether [event.NewEvent] fails, whether [bus.Publish] fails. *)
Record Oracle := {
  uuid : string;
  newEventErr : bool;
  publishErr : bool
}.

(** "Take first value" of a multi-valued map. *)
Definition firstValues (m : gmap string (list string)) : gmap string string :=
  omap head m.

Definition payloadOf (a : ServerAdapter) (r : Inbound) (requestID body : string)
  : Request.Payload :=
  {| Request.RequestID := requestID;
     Request.Method := inMethod r;
     Request.Path := inPath r;
     Request.Query := firstValues (inQuery r);
     Request.Headers := firstValues (inHeader r);
     Request.Body := body;
     Request.RemoteAddr := inRemoteAddr r;
     Request.LocalAddr := addr a;
     Request.TLS := inTLS r |}.

Definition eventOf (a : ServerAdapter) (payload : Request.Payload)
  : Event Request.Payload :=
  WithMetadata "request_id" (Request.RequestID payload)
    (WithMetadata "adapter_id" (ID a)
       (NewEvent "net.http.request" (ID a) payload)).

(** What one run of [handleRequest] does to the registry, the bus and its
    connection, in program order. *)
Inductive Op :=
| OpStore (id : string) (l : nat)
| OpPublish (evt : Event Request.Payload)
| OpDelete (id : string)
| OpSelect
| OpReply (k : WriterCall).

Inductive Phase :=
| Returned
| Blocked (l : nat) (id : string).

Definition StatusOK : Z := 200.
Definition StatusBadRequest : Z := 400.
Definition StatusInternalServerError : Z := 500.

(** [handleRequest] (server.go:98-184) up to its [select]; [c] is the
    address of the connection's writer [w]. *)
Definition handleRequest_ingress (a : ServerAdapter) (c : nat) (r : Inbound)
    (o : Oracle) (σ : World) : list Op * World * Phase :=
  match inBody r with
  | None =>
      let k := Error "Failed to read request body" StatusBadRequest in
      ([OpReply k], call c k σ, Returned)
  | Some body =>
      let requestID := uuid o in
      let payload := payloadOf a r requestID body in
      if newEventErr o then
        let k := Error "Failed to create event" StatusInternalServerError in
        ([OpReply k], call c k σ, Returned)
      else
        let evt := eventOf a payload in
        let l := List.length (handles σ) in
        let rw := {| w := c; requestID := requestID;
                     written := false; done := false |} in
        let σ := setHandles (handles σ ++ [rw]) σ in
        let σ := Store requestID l σ in
        if publishErr o then
          let k := Error "Failed to process request" StatusInternalServerError in
          ([OpStore requestID l; OpPublish evt; OpDelete requestID; OpReply k],
           call c k (Delete requestID σ), Returned)
        else
          ([OpStore requestID l; OpPublish evt; OpSelect],
           setBus (bus σ ++ [evt]) σ, Blocked l requestID)
  end.

Inductive SelectCase := CaseDone | CaseTimeout.

Definition Second : Z := 1000000000.
(** The ceiling of the wait, [30 * time.Second]. *)
Definition responseTimeout : Z := 30 * Second.

(** The [select] of server.go:172-183, [elapsed] nanoseconds after it was
    entered: a case is ready when [done] is closed, respectively when the
    timer has fired; Go picks among two ready cases at random ([coin]);
    with no ready case the handler stays blocked. *)
Definition select (doneClosed : bool) (elapsed : Z) (coin : bool)
  : option SelectCase :=
  match doneClosed, responseTimeout <=? elapsed with
  | true, true => Some (if coin then CaseDone else CaseTimeout)
  | true, false => Some CaseDone
  | false, true => Some CaseTimeout
  | false, false => None
  end.

Definition isWritten (l : nat) (σ : World) : bool :=
  default false (written <$> handles σ !! l).
Definition isDone (l : nat) (σ : World) : bool :=
  default false (done <$> handles σ !! l).

(** The body of the chosen [select] case. *)
Definition handleRequest_resume (sc : SelectCase) (c l : nat) (id : string)
    (σ : World) : list Op * World :=
  match sc with
  | CaseDone => ([OpDelete id], Delete id σ)
  | CaseTimeout =>
      let σ := Delete id σ in
      if negb (isWritten l σ) then
        let k1 := WriteHeader StatusOK in
        let k2 := Write "Request processed" in
        ([OpDelete id; OpReply k1; OpReply k2], call c k2 (call c k1 σ))
      else ([OpDelete id], σ)
  end.

(** The emitter deliveries that run while a handler is blocked. *)
Definition runEmits (env : list (Event Response.Payload * list (string * string)))
    (σ : World) : World :=
  foldl (λ σ e, (Emit e.1 e.2 σ).2) σ env.

(** One whole [handleRequest]: ingress, the deliveries [env] of the
    emitter while the handler waits, then the [select] observed [elapsed]
    nanoseconds after it was entered.  [None]: still blocked. *)
Definition handleRequest (a : ServerAdapter) (c : nat) (r : Inbound)
    (o : Oracle) (env : list (Event Response.Payload * list (string * string)))
    (elapsed : Z) (coin : bool) (σ : World) : option (list Op * World) :=
  match handleRequest_ingress a c r o σ with
  | (ops, σ1, Returned) => Some (ops, σ1)
  | (ops, σ1, Blocked l id) =>
      let σ2 := runEmits env σ1 in
      match select (isDone l σ2) elapsed coin with
      | None => None
      | Some sc =>
          let '(ops', σ3) := handleRequest_resume sc c l id σ2 in
          Some ((ops ++ ops')%list, σ3)
      end
  end.

(** What any goroutine of the listener or the emitter can do to the shared
    memory in one step: a handler runs up to its [select], a handler runs
    a [select] case, somebody holding a handle calls [WriteResponse], the
    emitter delivers an event. *)
Inductive step : World → World → Prop :=
| step_ingress a c r o σ : step σ (handleRequest_ingress a c r o σ).1.2
| step_resume sc c l id σ : step σ (handleRequest_resume sc c l id σ).2
| step_write l statusCode iter body σ :
    step σ (WriteResponse l statusCode iter body σ).2
| step_emit evt iter σ : step σ (Emit evt iter σ).2.

Definition isDelete (id : string) (op : Op) : bool :=
  match op with OpDelete id' => bool_decide (id' = id) | _ => false end.
Definition isPublish (op : Op) : bool :=
  match op with OpPublish _ => true | _ => false end.
Definition isStore (id : string) (op : Op) : bool :=
  match op with OpStore id' _ => bool_decide (id' = id) | _ => false end.
Definition isSelect (op : Op) : bool :=
  match op with OpSelect => true | _ => false end.
Definition isBodyWrite (k : WriterCall) : bool :=
  match k with Write _ | Error _ _ => true | _ => false end.

Definition count {A} (p : A → bool) (l : list A) : nat :=
  List.length (List.filter p l).

(** How [fmt] renders a [map[string]string] under [%v]: "map[k1:v1 k2:v2]"
    with the keys in ascending byte order. *)
Fixpoint insertByKey (kv : string * string) (l : list (string * string))
  : list (string * string) :=
  match l with
  | [] => [kv]
  | x :: l' => if String.leb kv.1 x.1 then kv :: l else x :: insertByKey kv l'
  end.
Definition sortByKey (l : list (string * string)) : list (string * string) :=
  foldr insertByKey [] l.
Fixpoint joinPairs (l : list (string * string)) : string :=
  match l with
  | [] => ""
  | [kv] => kv.1 ++ ":" ++ kv.2
  | kv :: l' => kv.1 ++ ":" ++ kv.2 ++ " " ++ joinPairs l'
  end.
Definition fmtMap (m : gmap string string) : string :=
  "map[" ++ joinPairs (sortByKey (map_to_list m)) ++ "]".




(** The loop of [ParsePathParams] (testing.go:18-25) over segments of equal
    number: a segment ":name" binds [name], any other segment must equal
    the path's, otherwise the result is a new empty map. *)
Fixpoint matchParts (patternParts pathParts : list string)
    (params : gmap string string) : gmap string string :=
  match patternParts, pathParts with
  | part :: ps, x :: xs =>
      if Go.HasPrefixByte ":" part
      then matchParts ps xs (<[Go.TrimPrefixByte ":" part := x]> params)
      else if bool_decide (part ≠ x) then ∅
      else matchParts ps xs params
  | _, _ => params
  end.

(** [ParsePathParams] (testing.go:8-28). *)
Definition ParsePathParams (pattern path : string) : gmap string string :=
  let patternParts := Go.Split "/" (Go.Trim "/" pattern) in
  let pathParts := Go.Split "/" (Go.Trim "/" path) in
  if bool_decide (List.length patternParts ≠ List.length pathParts) then ∅
  else matchParts patternParts pathParts ∅.


(** The calls one complete [WriteResponse] makes on its writer
    (server.go:204-218). *)
Definition responseCalls (statusCode : Z) (iter : list (string * string))
    (body : string) : list WriterCall :=
  ((λ kv, HeaderSet kv.1 kv.2) <$> iter) ++ [WriteHeader statusCode]
  ++ (if Go.nonEmpty body then [Write body] else []).


End Server.


(** ** Sample inputs *)

Module Sample.
Import Relay.

Definition routeA : adapterRoute :=
  {| id := "http-server-:8080"; listenAddr := ":8080";
     nextHop := "http://node-b:8080"; stats := 0 |}.
Definition routeB : adapterRoute :=
  {| id := "http-server-:8081"; listenAddr := ":8081";
     nextHop := "http://node-c:8080"; stats := 1 |}.

Definition cfg : Config :=
  {| adapterRoutes := <[id routeA := routeA]> {[id routeB := routeB]};
     route0 := routeA; routesRest := [routeB];
     maxHops := 10; nodeName := "NodeA" |}.

Definition st0 : State := {| totalStats := zeroStats; routeStats := ∅ |}.

Definition payloadWith (headers : gmap string string) : Request.Payload :=
  {| Request.RequestID := "req-1"; Request.Method := "GET";
     Request.Path := "/api/test"; Request.Query := ∅;
     Request.Headers := headers; Request.Body := "hello";
     Request.RemoteAddr := "10.0.0.7:51234"; Request.LocalAddr := ":8080";
     Request.TLS := false |}.

(** No hop header, a malformed one, one at the limit, a visited trail. *)
Definition payloadFresh : Request.Payload := payloadWith ∅.
Definition payloadMalformed : Request.Payload :=
  payloadWith {["X-Hop-Count" := "ten"]}.
Definition payloadOver : Request.Payload :=
  payloadWith {["X-Hop-Count" := "10"]}.
Definition payloadTrail : Request.Payload :=
  payloadWith {["X-Visited-Nodes" := "NodeB,NodeC"]}.

Definition eventOf (p : Request.Payload) : Event Request.Payload :=
  mkEvent "net.http.request" "http-server-:8080"
    (<["adapter_id" := "http-server-:8080"]> {["request_id" := "req-1"]})
    (Some p).

(** A network on which every URL parses and every hop answers 200. *)
Definition net : Net := {| urlParses := λ _, true; Do := λ _, Some 200 |}.

Import Server.

Definition adapter : ServerAdapter := {| addr := ":8080" |}.

(** One open connection, nothing registered. *)
Definition world0 : World :=
  {| writers := [ {| calls := []; writeFails := false |} ];
     handles := []; globalResponseWriters := ∅; bus := [] |}.

Definition inbound : Inbound :=
  {| inMethod := "POST"; inPath := "/api/test"; inQuery := ∅;
     inHeader := {["Content-Type" := ["text/plain"]]};
     inBody := Some "hello"; inRemoteAddr := "10.0.0.7:51234";
     inTLS := false |}.

Definition oracleOk : Oracle :=
  {| uuid := "req-1"; newEventErr := false; publishErr := false |}.
Definition oraclePublishFails : Oracle :=
  {| uuid := "req-1"; newEventErr := false; publishErr := true |}.

(** The response event that resolves request "req-1". *)
Definition response : Event Response.Payload :=
  WithMetadata "request_id" "req-1"
    (NewEvent "net.http.response" "NodeA"
       {| Response.RequestID := "req-1"; Response.StatusCode := 200;
          Response.Headers := {["Content-Type" := "text/plain"]};
          Response.Body := "Relayed by NodeA (hop 1)" |}).
Definition responseIter : list (string * string) :=
  [("Content-Type", "text/plain")].

(** The sample request has been read, registered and published; its
    handler is blocked in [select]. *)
Definition afterIngress : World :=
  (handleRequest_ingress adapter 0 inbound oracleOk world0).1.2.

(** Run 1.  The emitter has fetched the handle of "req-1"
    ([GetResponseWriter], the first statement of [Emit]); the handler's
    timer fires and its timeout case runs; the emitter then makes the
    [WriteResponse] call with the handle it holds. *)
Definition heldHandle : option nat := GetResponseWriter "req-1" afterIngress.
Definition afterTimeout : World :=
  (handleRequest_resume CaseTimeout 0 0 "req-1" afterIngress).2.
Definition lateWrite : option error * World :=
  WriteResponse 0 200 responseIter "Relayed by NodeA (hop 1)" afterTimeout.

(** Run 2.  The response is delivered, the handler wakes up on [done] and
    returns, and the bus delivers the same response a second time. *)
Definition firstDelivery : option error * World :=
  Emit response responseIter afterIngress.
Definition afterDone : World :=
  (handleRequest_resume CaseDone 0 0 "req-1" firstDelivery.2).2.
Definition redelivery : option error * World :=
  Emit response responseIter afterDone.

(** [strings.TrimSpace] on ASCII text: leading and trailing tabs, line
    feeds, vertical tabs, form feeds, carriage returns and blanks removed. *)
Definition isAsciiSpace (c : ascii) : bool :=
  bool_decide (nat_of_ascii c ∈ [9; 10; 11; 12; 13; 32]%nat).
Fixpoint trimLeft (s : string) : string :=
  match s with
  | String c s' => if isAsciiSpace c then trimLeft s' else s
  | EmptyString => EmptyString
  end.
Fixpoint trimRight (s : string) : string :=
  match s with
  | String c s' =>
      match trimRight s' with
      | EmptyString => if isAsciiSpace c then EmptyString else String c EmptyString
      | t => String c t
      end
  | EmptyString => EmptyString
  end.
Definition trimSpace (s : string) : string := trimRight (trimLeft s).

(** A node with two adapters, the second with its own next hop. *)
Definition environ : gmap string string :=
  <["ADAPTER_PORTS" := ":8080, :8081"]>
    (<["NEXT_HOP" := "http://node-b:8080"]>
       (<["NEXT_HOPS" := " ,http://node-c:8080"]>
          (<["MAX_HOPS" := "ten"]> {["NODE_NAME" := "NodeA"]}))).

(** The same request on a connection whose [Write] fails. *)
Definition worldBroken : World :=
  {| writers := [ {| calls := []; writeFails := true |} ];
     handles := []; globalResponseWriters := ∅; bus := [] |}.
Definition afterIngressBroken : World :=
  (handleRequest_ingress adapter 0 inbound oracleOk worldBroken).1.2.

End Sample.

(** * Properties *)

(** ** The Go primitives *)

Section GoPrimitives.

Example Atoi_decimal : Go.Atoi "10" = Some 10.
Proof. reflexivity. Qed.
Example Atoi_signed : Go.Atoi "-3" = Some (-3) ∧ Go.Atoi "+7" = Some 7.
Proof. split; reflexivity. Qed.
Example Atoi_rejects :
  Go.Atoi "" = None ∧ Go.Atoi "ten" = None ∧ Go.Atoi " 7" = None ∧
  Go.Atoi "1.5" = None ∧ Go.Atoi "-" = None ∧ Go.Atoi "1_0" = None.
Proof. repeat split; reflexivity. Qed.
Example Atoi_range :
  Go.Atoi "9223372036854775807" = Some Go.maxInt ∧
  Go.Atoi "9223372036854775808" = None ∧
  Go.Atoi "-9223372036854775808" = Some Go.minInt.
Proof. repeat split; reflexivity. Qed.
Example Itoa_renders : Go.Itoa 0 = "0" ∧ Go.Itoa 11 = "11" ∧ Go.Itoa (-2) = "-2".
Proof. repeat split; reflexivity. Qed.
Example canonical_keys :
  Go.CanonicalMIMEHeaderKey "x-hop-count" = "X-Hop-Count" ∧
  Go.CanonicalMIMEHeaderKey "CONTENT-type" = "Content-Type" ∧
  Go.CanonicalMIMEHeaderKey "x hop" = "x hop".
Proof. repeat split; reflexivity. Qed.

Lemma Atoi_in_range s h : Go.Atoi s = Some h → Go.minInt ≤ h ≤ Go.maxInt.
Proof.
  unfold Go.Atoi.
  destruct (match s with
            | String "+" r => (false, r)
            | String "-" r => (true, r)
            | _ => (false, s)
            end) as [neg ds].
  destruct ds as [| c ds]; [done |].
  destruct (Go.parseDigits 0 (String c ds)) as [n |]; [| done].
  destruct (Go.minInt <=? _) eqn:Hlo; [| done].
  destruct (_ <=? Go.maxInt) eqn:Hhi; [| done].
  intros [= <-]. lia.
Qed.

Lemma wrapInt_in_range z : Go.minInt ≤ z ≤ Go.maxInt → Go.wrapInt z = z.
Proof.
  unfold Go.wrapInt, Go.minInt, Go.maxInt. intros Hz.
  rewrite Z.mod_small; lia.
Qed.

Lemma wrapInt_overflow : Go.wrapInt (Go.maxInt + 1) = Go.minInt.
Proof. reflexivity. Qed.

End GoPrimitives.

(** ** The relay router *)

Section RelayRouter.
Import Relay.

Variable cfg : Config.

Lemma forwardCalls_drop (payload : Request.Payload) :
  forwardCalls [Publish (dropResponse cfg payload)] = 0%nat.
Proof. reflexivity. Qed.

Lemma processEvent_drop respEventErr evt st payload :
  Data evt = Some payload →
  maxHops cfg < hopCountOf payload →
  processEvent cfg respEventErr evt st =
    ([Publish (dropResponse cfg payload)],
     bump incDropped (routeFor cfg evt) (bump incReceived (routeFor cfg evt) st)).
Proof.
  intros Hd Hgt. unfold processEvent. rewrite Hd.
  destruct (Z.ltb_spec (maxHops cfg) (hopCountOf payload)); [done | lia].
Qed.

Lemma processEvent_relay respEventErr evt st payload :
  Data evt = Some payload →
  hopCountOf payload ≤ maxHops cfg →
  processEvent cfg respEventErr evt st =
    (GoForward (routeFor cfg evt) payload (hopCountOf payload) ::
       (if respEventErr then []
        else [Publish (ackResponse cfg payload (hopCountOf payload))]),
     bump incReceived (routeFor cfg evt) st).
Proof.
  intros Hd Hle. unfold processEvent. rewrite Hd.
  destruct (Z.ltb_spec (maxHops cfg) (hopCountOf payload)); [lia |].
  by destruct respEventErr.
Qed.

Lemma processEvent_undecodable respEventErr evt st :
  Data evt = None →
  processEvent cfg respEventErr evt st =
    ([], bump incErrors (routeFor cfg evt) (bump incReceived (routeFor cfg evt) st)).
Proof. intros Hd. unfold processEvent. by rewrite Hd. Qed.

(** C1.  For an event whose payload decodes, a hop count above [maxHops]
    starts no forward, and a hop count of at most [maxHops] starts exactly
    one. *)
Theorem forward_iff_within_hops respEventErr evt st payload :
  Data evt = Some payload →
  (maxHops cfg < hopCountOf payload →
     forwardCalls (processEvent cfg respEventErr evt st).1 = 0%nat) ∧
  (hopCountOf payload ≤ maxHops cfg →
     forwardCalls (processEvent cfg respEventErr evt st).1 = 1%nat).
Proof.
  intros Hd. split; intros Hcmp.
  - by rewrite (processEvent_drop _ _ _ _ Hd Hcmp).
  - rewrite (processEvent_relay _ _ _ _ Hd Hcmp). by destruct respEventErr.
Qed.

Lemma statsOf_bump_same f r st : statsOf (bump f r st) r = f (statsOf st r).
Proof. unfold statsOf, bump. simpl. by rewrite lookup_insert_eq. Qed.

Lemma statsOf_bump_other f r r' st :
  stats r' ≠ stats r → statsOf (bump f r st) r' = statsOf st r'.
Proof. intros Hne. unfold statsOf, bump. simpl. by rewrite lookup_insert_ne. Qed.

(** C6, as the code has it.  For an event whose hop count exceeds
    [maxHops] the router adds one (modulo 2^64) to the dropped counter of
    the event's route and to the total, leaves the counters of the other
    routes alone, publishes exactly one response, for the same request ID,
    whose body is "Max hops reached at <node>", and starts no forward. *)
Theorem drop_counts_and_replies respEventErr evt st payload :
  Data evt = Some payload →
  maxHops cfg < hopCountOf payload →
  let route := routeFor cfg evt in
  let out := processEvent cfg respEventErr evt st in
  (∃ e resp,
      out.1 = [Publish e] ∧ Data e = Some resp ∧
      Type_ e = "net.http.response" ∧
      Metadata e !! "request_id" = Some (Request.RequestID payload) ∧
      Response.RequestID resp = Request.RequestID payload ∧
      Response.Body resp = "Max hops reached at " ++ nodeName cfg) ∧
  dropped (statsOf out.2 route) = Go.wrapUint64 (dropped (statsOf st route) + 1) ∧
  dropped (totalStats out.2) = Go.wrapUint64 (dropped (totalStats st) + 1) ∧
  (∀ r', stats r' ≠ stats route → statsOf out.2 r' = statsOf st r') ∧
  forwardCalls out.1 = 0%nat.
Proof.
  intros Hd Hgt route out. subst out route.
  rewrite (processEvent_drop _ _ _ _ Hd Hgt). cbn [fst snd].
  split; [| split; [| split; [| split]]].
  - eexists _, _. split; [reflexivity |]. cbn. by rewrite lookup_insert_eq.
  - by rewrite !statsOf_bump_same.
  - reflexivity.
  - intros r' Hne. by rewrite !statsOf_bump_other.
  - reflexivity.
Qed.

(** C9.  The response published for a dropped request has status code 200
    and content type text/plain, the same status code as the
    acknowledgement of every request that is relayed. *)
Theorem drop_reply_is_success respEventErr evt st payload :
  Data evt = Some payload →
  maxHops cfg < hopCountOf payload →
  ∃ e resp,
    (processEvent cfg respEventErr evt st).1 = [Publish e] ∧
    Data e = Some resp ∧
    Response.StatusCode resp = 200 ∧
    Response.Headers resp !! "Content-Type" = Some "text/plain" ∧
    (∀ evt' st' payload',
        Data evt' = Some payload' →
        hopCountOf payload' ≤ maxHops cfg →
        ∃ e' ack,
          Publish e' ∈ (processEvent cfg false evt' st').1 ∧
          Data e' = Some ack ∧
          Response.StatusCode ack = Response.StatusCode resp).
Proof.
  intros Hd Hgt. rewrite (processEvent_drop _ _ _ _ Hd Hgt).
  eexists _, _. split; [reflexivity |]. split; [reflexivity |].
  split; [reflexivity |]. split; [cbn; by rewrite lookup_singleton_eq |].
  intros evt' st' payload' Hd' Hle.
  rewrite (processEvent_relay _ _ _ _ Hd' Hle).
  exists (ackResponse cfg payload' (hopCountOf payload')). eexists.
  split; [| split; reflexivity].
  cbn [fst]. apply list_elem_of_further, list_elem_of_here.
Qed.

(** C10.  With the [X-Hop-Count] header absent, or present but rejected by
    [strconv.Atoi], the hop count is 1; the event is not rejected: when
    [maxHops] is at least 1 it is forwarded with hop count 1. *)
Theorem hop_header_missing_or_malformed respEventErr evt st payload :
  Data evt = Some payload →
  (Request.Headers payload !! "X-Hop-Count" = None ∨
   ∃ s, Request.Headers payload !! "X-Hop-Count" = Some s ∧ Go.Atoi s = None) →
  hopCountOf payload = 1 ∧
  (1 ≤ maxHops cfg →
     GoForward (routeFor cfg evt) payload 1
       ∈ (processEvent cfg respEventErr evt st).1).
Proof.
  intros Hd Hhdr.
  assert (hopCountOf payload = 1) as H1.
  { unfold hopCountOf. destruct Hhdr as [-> | (s & -> & ->)]; reflexivity. }
  split; [exact H1 |]. intros Hmax.
  rewrite (processEvent_relay _ _ _ _ Hd) by lia.
  rewrite H1. cbn [fst]. apply list_elem_of_here.
Qed.

(** A well-formed header is incremented (with the wrap-around of [int]). *)
Lemma hop_header_incremented payload s h :
  Request.Headers payload !! "X-Hop-Count" = Some s →
  Go.Atoi s = Some h →
  hopCountOf payload = Go.wrapInt (h + 1).
Proof. intros Hs Hh. unfold hopCountOf. by rewrite Hs, Hh. Qed.

(** A request that arrives with hop count [h] below [maxHops] is forwarded
    with hop count [h + 1]. *)
Lemma relay_forwards_incremented_hop respEventErr evt st payload s h :
  Data evt = Some payload →
  Request.Headers payload !! "X-Hop-Count" = Some s →
  Go.Atoi s = Some h →
  h < maxHops cfg → h < Go.maxInt →
  GoForward (routeFor cfg evt) payload (h + 1)
    ∈ (processEvent cfg respEventErr evt st).1.
Proof.
  intros Hd Hs Hh Hmax Hint.
  pose proof (Atoi_in_range _ _ Hh) as Hrange.
  assert (hopCountOf payload = h + 1) as Hhc.
  { rewrite (hop_header_incremented _ _ _ Hs Hh). apply wrapInt_in_range. lia. }
  rewrite (processEvent_relay _ _ _ _ Hd) by lia.
  rewrite Hhc. cbn [fst]. apply list_elem_of_here.
Qed.

End RelayRouter.

(** C1 at a request over the limit and at a fresh request. *)
Lemma forward_iff_within_hops_witness :
  Relay.forwardCalls
    (Relay.processEvent Sample.cfg false (Sample.eventOf Sample.payloadOver) Sample.st0).1 = 0%nat ∧
  Relay.forwardCalls
    (Relay.processEvent Sample.cfg false (Sample.eventOf Sample.payloadFresh) Sample.st0).1 = 1%nat.
Proof.
  split.
  - apply (forward_iff_within_hops Sample.cfg false
             (Sample.eventOf Sample.payloadOver) Sample.st0 Sample.payloadOver eq_refl).
    vm_compute. reflexivity.
  - apply (forward_iff_within_hops Sample.cfg false
             (Sample.eventOf Sample.payloadFresh) Sample.st0 Sample.payloadFresh eq_refl).
    vm_compute. discriminate.
Defined.

(** C6, the claim as worded, fails: with [maxHops = 10] and an inbound hop
    header of 10 the request is dropped, and no response that is published
    has the body "max hops exceeded at NodeA", nor holds that text. *)
Lemma drop_body_differs :
  let out := Relay.processEvent Sample.cfg false
               (Sample.eventOf Sample.payloadOver) Sample.st0 in
  Relay.maxHops Sample.cfg < Relay.hopCountOf Sample.payloadOver ∧
  ∀ e resp,
    Relay.Publish e ∈ out.1 → Data e = Some resp →
    Response.Body resp = "Max hops reached at NodeA" ∧
    Response.Body resp ≠ "max hops exceeded at " ++ Relay.nodeName Sample.cfg ∧
    index 0 ("max hops exceeded at " ++ Relay.nodeName Sample.cfg)
      (Response.Body resp) = None.
Proof.
  cbv zeta. split; [vm_compute; reflexivity |].
  intros e resp Hin Hd.
  rewrite (processEvent_drop Sample.cfg false (Sample.eventOf Sample.payloadOver)
             Sample.st0 Sample.payloadOver eq_refl) in Hin
    by (vm_compute; reflexivity).
  cbn [fst] in Hin. apply list_elem_of_singleton in Hin.
  injection Hin as ->. cbn in Hd. injection Hd as <-.
  split; [reflexivity |]. split; [discriminate | reflexivity].
Qed.

(** C6 as the code has it, at the dropped sample request. *)
Lemma drop_counts_and_replies_witness :
  let out := Relay.processEvent Sample.cfg false
               (Sample.eventOf Sample.payloadOver) Sample.st0 in
  Relay.dropped (Relay.statsOf out.2 Sample.routeA) = 1 ∧
  Relay.forwardCalls out.1 = 0%nat.
Proof.
  pose proof (drop_counts_and_replies Sample.cfg false
                (Sample.eventOf Sample.payloadOver) Sample.st0 Sample.payloadOver
                eq_refl) as H.
  cbv zeta in *.
  destruct H as (_ & Hroute & _ & _ & Hfwd); [vm_compute; reflexivity |].
  split; [| exact Hfwd].
  etransitivity; [exact Hroute | reflexivity].
Defined.

(** C9 at the dropped sample request. *)
Lemma drop_reply_is_success_witness :
  ∃ e resp,
    (Relay.processEvent Sample.cfg false
       (Sample.eventOf Sample.payloadOver) Sample.st0).1 = [Relay.Publish e] ∧
    Data e = Some resp ∧ Response.StatusCode resp = 200.
Proof.
  destruct (drop_reply_is_success Sample.cfg false
              (Sample.eventOf Sample.payloadOver) Sample.st0 Sample.payloadOver
              eq_refl) as (e & resp & H1 & H2 & H3 & _); [vm_compute; reflexivity |].
  exists e, resp. auto.
Defined.

(** C10 at a request whose hop header reads "ten". *)
Lemma hop_header_missing_or_malformed_witness :
  Go.Atoi "ten" = None ∧
  Relay.hopCountOf Sample.payloadMalformed = 1 ∧
  Relay.GoForward Sample.routeA Sample.payloadMalformed 1
    ∈ (Relay.processEvent Sample.cfg false
         (Sample.eventOf Sample.payloadMalformed) Sample.st0).1.
Proof.
  split; [reflexivity |].
  destruct (hop_header_missing_or_malformed Sample.cfg false
              (Sample.eventOf Sample.payloadMalformed) Sample.st0
              Sample.payloadMalformed eq_refl) as [H1 H2].
  - right. exists "ten". split; reflexivity.
  - split; [exact H1 |]. apply H2. vm_compute. discriminate.
Defined.

(** ** The wire contract of a forward *)

Section ForwardWire.

Local Abbreviation canon := Go.CanonicalMIMEHeaderKey.
Local Abbreviation copy := (foldl (λ h kv, Go.Header_Set kv.1 kv.2 h)).

Lemma canon_hop_count : canon "X-Hop-Count" = "X-Hop-Count".
Proof. reflexivity. Qed.
Lemma canon_relay_node : canon "X-Relay-Node" = "X-Relay-Node".
Proof. reflexivity. Qed.
Lemma canon_visited_nodes : canon "X-Visited-Nodes" = "X-Visited-Nodes".
Proof. reflexivity. Qed.
Lemma canon_original_id : canon "X-Original-Request-ID" = "X-Original-Request-Id".
Proof. reflexivity. Qed.

Lemma lookup_Header_Set_eq k v (h : gmap string (list string)) key :
  canon k = key → Go.Header_Set k v h !! key = Some [v].
Proof. intros <-. apply lookup_insert_eq. Qed.

Lemma lookup_Header_Set_ne k v (h : gmap string (list string)) key :
  canon k ≠ key → Go.Header_Set k v h !! key = h !! key.
Proof. intros Hne. by apply lookup_insert_ne. Qed.

(** An entry of the copied header map is an entry it started with or the
    value of an inbound header with that canonical name. *)
Lemma copy_lookup_inv (iter : list (string * string))
    (h : gmap string (list string)) key vs :
  copy h iter !! key = Some vs →
  h !! key = Some vs ∨ ∃ k v, (k, v) ∈ iter ∧ canon k = key ∧ vs = [v].
Proof.
  revert h. induction iter as [| [k0 v0] iter IH]; intros h Hl; [by left |].
  cbn [foldl] in Hl. apply IH in Hl as [Hl | (k & v & Hin & Hk & Hv)].
  - unfold Go.Header_Set in Hl. cbn [fst snd] in Hl.
    destruct (decide (canon k0 = key)) as [<- | Hne].
    + rewrite lookup_insert_eq in Hl. injection Hl as <-.
      right. exists k0, v0. split; [apply list_elem_of_here | done].
    + rewrite lookup_insert_ne in Hl by done. by left.
  - right. exists k, v. split; [by apply list_elem_of_further | done].
Qed.

(** An inbound header that is alone in having its canonical name is
    copied under that name. *)
Lemma copy_lookup_unique (iter : list (string * string))
    (h : gmap string (list string)) k v :
  ((k, v) ∈ iter ∨ h !! canon k = Some [v]) →
  (∀ k' v', (k', v') ∈ iter → canon k' = canon k → v' = v) →
  copy h iter !! canon k = Some [v].
Proof.
  revert h. induction iter as [| [k0 v0] iter IH]; intros h Hin Huniq.
  - destruct Hin as [Hin | Hh]; [by apply elem_of_nil in Hin | done].
  - cbn [foldl]. apply IH.
    + destruct Hin as [Hin | Hh].
      * apply elem_of_cons in Hin as [Heq | Hin]; [| by left].
        injection Heq as <- <-. right.
        unfold Go.Header_Set. cbn [fst snd]. by rewrite lookup_insert_eq.
      * right. unfold Go.Header_Set. cbn [fst snd].
        destruct (decide (canon k0 = canon k)) as [Heq | Hne].
        -- rewrite Heq, lookup_insert_eq.
           by rewrite (Huniq k0 v0 (list_elem_of_here _ _) Heq).
        -- by rewrite lookup_insert_ne.
    + intros k' v' Hin'. apply Huniq. by apply list_elem_of_further.
Qed.

Lemma string_length_app (a b : string) :
  String.length (a ++ b) = (String.length a + String.length b)%nat.
Proof. induction a as [| c a IH]; [done |]. simpl. f_equal. exact IH. Qed.

Lemma prefixed_differs (c : ascii) (a b : string) : String c a ++ b ≠ b.
Proof.
  intros Heq. apply (f_equal String.length) in Heq.
  simpl in Heq. rewrite string_length_app in Heq. lia.
Qed.

Variables (net : Net) (iter : list (string * string)).
Variables (nextHop : string) (payload : Request.Payload).
Variables (hopCount : Z) (nodeName : string).

Hypothesis url_ok : urlParses net (nextHop ++ Request.Path payload) = true.

(** C8.  Whatever the inbound method, a forward that gets its request
    built issues a POST whose body is the original body behind the marker
    "[<node>→hop<n>] "; the body on the wire is never the original one. *)
Theorem forward_is_post_with_marker :
  ∃ req,
    Relay.forwardRequest net iter nextHop payload hopCount nodeName
      = Relay.Sent req (Do net req) ∧
    reqMethod req = "POST" ∧
    reqBody req =
      ("[" ++ nodeName ++ "→hop" ++ Go.Itoa hopCount ++ "] ") ++ Request.Body payload ∧
    reqBody req ≠ Request.Body payload ∧
    (Request.Method payload ≠ "POST" → reqMethod req ≠ Request.Method payload).
Proof.
  unfold Relay.forwardRequest. rewrite url_ok. cbn [negb].
  eexists. split; [reflexivity |]. cbn [reqMethod reqBody].
  split; [done |]. split; [done |]. split; [apply prefixed_differs | congruence].
Qed.

Hypothesis iter_ok : iter ≡ₚ map_to_list (Request.Headers payload).

Lemma iter_elem k v : (k, v) ∈ iter ↔ Request.Headers payload !! k = Some v.
Proof. rewrite iter_ok. apply elem_of_map_to_list. Qed.

(** C5, as the code has it.  A forward of the relay node that gets its
    request built sends it to next hop + path with [X-Hop-Count] set to
    the hop count it was given and [X-Relay-Node] to the node name; every
    inbound header whose canonical name is neither of the two and is
    shared with no other inbound header is carried under that name; and
    the request has no further header, so an [X-Visited-Nodes] trail is
    passed on as it came and never extended.  The instrumented relay
    sets the same two headers and sets [X-Visited-Nodes] to the inbound
    trail followed by a comma and the node name, or to the node name alone
    when there is no inbound trail. *)
Theorem forward_wire_contract :
  (∃ req,
      Relay.forwardRequest net iter nextHop payload hopCount nodeName
        = Relay.Sent req (Do net req) ∧
      reqURL req = nextHop ++ Request.Path payload ∧
      reqHeader req !! "X-Hop-Count" = Some [Go.Itoa hopCount] ∧
      reqHeader req !! "X-Relay-Node" = Some [nodeName] ∧
      (∀ k v,
          Request.Headers payload !! k = Some v →
          canon k ≠ "X-Hop-Count" → canon k ≠ "X-Relay-Node" →
          (∀ k', is_Some (Request.Headers payload !! k') → canon k' = canon k → k' = k) →
          reqHeader req !! canon k = Some [v]) ∧
      (∀ key vs,
          reqHeader req !! key = Some vs →
          key = "X-Hop-Count" ∨ key = "X-Relay-Node" ∨
          ∃ k v, Request.Headers payload !! k = Some v ∧ canon k = key ∧ vs = [v])) ∧
  (∃ req,
      RelayInstrumented.forwardRequest net iter nextHop payload hopCount nodeName
        = RelayInstrumented.Sent req (Do net req) ∧
      reqURL req = nextHop ++ Request.Path payload ∧
      reqHeader req !! "X-Hop-Count" = Some [Go.Itoa hopCount] ∧
      reqHeader req !! "X-Relay-Node" = Some [nodeName] ∧
      let visited := default "" (Request.Headers payload !! "X-Visited-Nodes") in
      reqHeader req !! "X-Visited-Nodes" =
        Some [if bool_decide (visited = "") then nodeName
              else visited ++ "," ++ nodeName]).
Proof.
  split.
  - unfold Relay.forwardRequest. rewrite url_ok. cbn [negb].
    eexists. split; [reflexivity |]. cbn [reqURL reqHeader].
    split; [done |].
    split; [by rewrite lookup_Header_Set_ne, lookup_Header_Set_eq |].
    split; [by rewrite lookup_Header_Set_eq |]. split.
    + intros k v Hk Hhop Hnode Huniq.
      rewrite !lookup_Header_Set_ne by done.
      apply copy_lookup_unique; [left; by apply iter_elem |].
      intros k' v' Hin' Hcanon. apply iter_elem in Hin'.
      assert (k' = k) as -> by (apply Huniq; [by eexists | done]).
      congruence.
    + intros key vs Hl.
      destruct (decide (key = "X-Relay-Node")) as [-> | Hn1]; [by right; left |].
      destruct (decide (key = "X-Hop-Count")) as [-> | Hn2]; [by left |].
      rewrite !lookup_Header_Set_ne in Hl by done.
      apply copy_lookup_inv in Hl as [Hl | (k & v & Hin & Hk & Hv)];
        [by rewrite lookup_empty in Hl |].
      right. right. exists k, v. by rewrite <- iter_elem.
  - unfold RelayInstrumented.forwardRequest. rewrite url_ok. cbn [negb].
    eexists. split; [reflexivity |]. cbn [reqURL reqHeader].
    split; [done |].
    destruct (bool_decide _);
      (split; [rewrite !lookup_Header_Set_ne by done; by rewrite lookup_Header_Set_eq |]);
      (split; [rewrite !lookup_Header_Set_ne by done; by rewrite lookup_Header_Set_eq |]);
      by rewrite lookup_Header_Set_eq.
Qed.

End ForwardWire.

(** C8 at the fresh sample request, a GET: it goes out as a POST with the
    marked body. *)
Lemma forward_is_post_with_marker_witness :
  Request.Method Sample.payloadFresh = "GET" ∧
  ∃ req,
    Relay.forwardRequest Sample.net [] "http://node-b:8080" Sample.payloadFresh 1 "NodeA"
      = Relay.Sent req (Some 200) ∧
    reqMethod req = "POST" ∧
    reqBody req = "[NodeA→hop1] hello".
Proof.
  split; [reflexivity |].
  destruct (forward_is_post_with_marker Sample.net [] "http://node-b:8080"
              Sample.payloadFresh 1 "NodeA" eq_refl) as (req & H1 & H2 & H3 & _).
  exists req. split; [exact H1 |]. split; [exact H2 | exact H3].
Defined.

(** C5, the claim as worded, fails on the relay node: a forward of a request
    that arrives without a trail carries no [X-Visited-Nodes] header, and a
    forward of a request that arrives with the trail "NodeB,NodeC" carries
    that trail unchanged, without "NodeA". *)
Lemma forward_appends_no_trail :
  (∃ req,
      Relay.forwardRequest Sample.net [] "http://node-b:8080"
        Sample.payloadFresh 1 "NodeA" = Relay.Sent req (Some 200) ∧
      reqHeader req !! "X-Visited-Nodes" = None) ∧
  (∃ req,
      Relay.forwardRequest Sample.net [("X-Visited-Nodes", "NodeB,NodeC")]
        "http://node-b:8080" Sample.payloadTrail 1 "NodeA"
        = Relay.Sent req (Some 200) ∧
      reqHeader req !! "X-Visited-Nodes" = Some ["NodeB,NodeC"]).
Proof.
  split; eexists; (split; [reflexivity |]); vm_compute; reflexivity.
Qed.

(** C5 as the code has it, at the sample request that arrives with a
    trail. *)
Lemma forward_wire_contract_witness :
  (∃ req,
      Relay.forwardRequest Sample.net [("X-Visited-Nodes", "NodeB,NodeC")]
        "http://node-b:8080" Sample.payloadTrail 1 "NodeA"
        = Relay.Sent req (Some 200) ∧
      reqURL req = "http://node-b:8080/api/test" ∧
      reqHeader req !! "X-Hop-Count" = Some ["1"] ∧
      reqHeader req !! "X-Relay-Node" = Some ["NodeA"]) ∧
  (∃ req,
      RelayInstrumented.forwardRequest Sample.net [("X-Visited-Nodes", "NodeB,NodeC")]
        "http://node-b:8080" Sample.payloadTrail 1 "NodeA"
        = RelayInstrumented.Sent req (Some 200) ∧
      reqHeader req !! "X-Visited-Nodes" = Some ["NodeB,NodeC,NodeA"]).
Proof.
  assert ([("X-Visited-Nodes", "NodeB,NodeC")]
            ≡ₚ map_to_list (Request.Headers Sample.payloadTrail)) as Hiter.
  { unfold Sample.payloadTrail, Sample.payloadWith. cbn [Request.Headers].
    by rewrite map_to_list_singleton. }
  destruct (forward_wire_contract Sample.net [("X-Visited-Nodes", "NodeB,NodeC")]
              "http://node-b:8080" Sample.payloadTrail 1 "NodeA" eq_refl Hiter)
    as [(req & H1 & H2 & H3 & H4 & _) (req' & H1' & _ & _ & _ & H5')].
  split.
  - exists req. split; [exact H1 |]. split; [exact H2 |]. split; [exact H3 | exact H4].
  - exists req'. split; [exact H1' | exact H5'].
Defined.

(** ** The listener and the pending-response handles *)

Section Listener.
Import Server.

Lemma handles_calls (c : nat) (ks : list (string * string)) σ :
  handles (foldl (λ σ kv, call c (HeaderSet kv.1 kv.2) σ) σ ks) = handles σ.
Proof. revert σ. induction ks as [| k ks IH]; intros σ; [done |]. cbn. by rewrite IH. Qed.

Lemma registry_calls (c : nat) (ks : list (string * string)) σ :
  globalResponseWriters (foldl (λ σ kv, call c (HeaderSet kv.1 kv.2) σ) σ ks)
    = globalResponseWriters σ.
Proof. revert σ. induction ks as [| k ks IH]; intros σ; [done |]. cbn. by rewrite IH. Qed.

(** A [WriteResponse] that reports an error leaves the handles as they
    are; one that succeeds found the handle unwritten and marks it. *)
Lemma WriteResponse_handles l statusCode iter body σ :
  let out := WriteResponse l statusCode iter body σ in
  globalResponseWriters out.2 = globalResponseWriters σ ∧
  match out.1 with
  | Some _ => handles out.2 = handles σ
  | None =>
      ∃ rw, handles σ !! l = Some rw ∧ written rw = false ∧
            handles out.2 =
              <[l := {| w := w rw; requestID := requestID rw;
                        written := true; done := true |}]> (handles σ)
  end.
Proof.
  unfold WriteResponse. destruct (handles σ !! l) as [rw |] eqn:Hl; [| done].
  destruct (written rw) eqn:Hw; [done |].
  destruct (Go.nonEmpty body); [destruct (writeFailsAt _ _) |]; cbn;
    rewrite ?registry_calls, ?handles_calls; (split; [done |]); eauto.
Qed.

Lemma WriteResponse_rejected l statusCode iter body σ :
  isWritten l σ = true →
  WriteResponse l statusCode iter body σ
    = (Some (Errorf "response already written"), σ).
Proof.
  unfold isWritten, WriteResponse. destruct (handles σ !! l) as [rw |]; [| done].
  cbn. by intros ->.
Qed.

Lemma isWritten_after_write l l' statusCode iter body σ :
  isWritten l σ = true →
  isWritten l (WriteResponse l' statusCode iter body σ).2 = true.
Proof.
  intros Hw.
  pose proof (WriteResponse_handles l' statusCode iter body σ) as [_ H].
  cbv zeta in H. unfold isWritten in *.
  destruct (WriteResponse l' statusCode iter body σ).1.
  - by rewrite H.
  - destruct H as (rw & Hl' & Hrw & ->).
    destruct (decide (l = l')) as [-> | Hne].
    + rewrite Hl' in Hw. cbn in Hw. congruence.
    + by rewrite list_lookup_insert_ne.
Qed.

Lemma Emit_handles_registry evt iter σ :
  globalResponseWriters (Emit evt iter σ).2 = globalResponseWriters σ ∧
  ∀ l, isWritten l σ = true → isWritten l (Emit evt iter σ).2 = true.
Proof.
  unfold Emit. destruct (Data evt) as [payload |]; [| done].
  destruct (GetResponseWriter _ σ) as [l' |]; [| done].
  split; [apply WriteResponse_handles |].
  intros l. apply isWritten_after_write.
Qed.

(** Once a handle is written it stays written, whatever runs next. *)
Lemma step_written l σ σ' : step σ σ' → isWritten l σ = true → isWritten l σ' = true.
Proof.
  intros Hstep Hw. destruct Hstep as [a c r o σ | sc c l' id σ | l' sc it b σ | evt it σ].
  - unfold handleRequest_ingress.
    assert (isWritten l (setHandles (handles σ ++ [ {| w := c; requestID := uuid o;
               written := false; done := false |} ]) σ) = true) as Happ.
    { unfold isWritten in *. cbn. destruct (handles σ !! l) as [rw |] eqn:Hl; [| done].
      by rewrite (lookup_app_l_Some _ _ _ _ Hl). }
    destruct (inBody r); [| done].
    destruct (newEventErr o); [done |]. by destruct (publishErr o).
  - destruct sc; cbn; [done |]. by destruct (negb _).
  - by apply isWritten_after_write.
  - by apply Emit_handles_registry.
Qed.

Lemma steps_written l σ σ' : rtc step σ σ' → isWritten l σ = true → isWritten l σ' = true.
Proof. induction 1; eauto using step_written. Qed.

(** C2, as the code has it.  After a first successful [WriteResponse] on a
    handle, and whatever the handlers and the emitter do next, every
    further [WriteResponse] on that handle is rejected with "response
    already written" and changes nothing; the timeout case of the
    handler only removes the registry entry and writes nothing; and the
    delivery of a response event for that handle is rejected without a
    write, with "response already written" while the handle is
    registered and with "no response writer found for request ID <id>"
    once it is not. *)
Theorem write_once l statusCode iter body σ σ1 σ2 :
  WriteResponse l statusCode iter body σ = (None, σ1) →
  rtc step σ1 σ2 →
  (∀ statusCode' iter' body',
      WriteResponse l statusCode' iter' body' σ2
        = (Some (Errorf "response already written"), σ2)) ∧
  (∀ c id,
      handleRequest_resume CaseTimeout c l id σ2 = ([OpDelete id], Delete id σ2)) ∧
  (∀ evt iter' payload,
      Data evt = Some payload →
      (GetResponseWriter (Response.RequestID payload) σ2 = Some l →
         Emit evt iter' σ2 = (Some (Errorf "response already written"), σ2)) ∧
      (GetResponseWriter (Response.RequestID payload) σ2 = None →
         Emit evt iter' σ2 =
           (Some (Errorf ("no response writer found for request ID "
                          ++ Response.RequestID payload)), σ2))).
Proof.
  intros Hok Hsteps.
  assert (isWritten l σ1 = true) as Hw1.
  { pose proof (WriteResponse_handles l statusCode iter body σ) as [_ H].
    cbv zeta in H. rewrite Hok in H. cbn [fst snd] in H.
    destruct H as (rw & Hl & _ & Hh). unfold isWritten. rewrite Hh.
    rewrite list_lookup_insert_eq; [done |]. by eapply lookup_lt_Some. }
  assert (isWritten l σ2 = true) as Hw2 by eauto using steps_written.
  split; [| split].
  - intros. by apply WriteResponse_rejected.
  - intros c id. unfold handleRequest_resume.
    replace (isWritten l (Delete id σ2)) with true; done.
  - intros evt iter' payload Hd. unfold Emit. rewrite Hd.
    split; intros ->; [by apply WriteResponse_rejected | done].
Qed.

Lemma written_done_after_write l l' statusCode iter body σ :
  isWritten l σ = isDone l σ →
  isWritten l (WriteResponse l' statusCode iter body σ).2
    = isDone l (WriteResponse l' statusCode iter body σ).2.
Proof.
  intros Hinv.
  pose proof (WriteResponse_handles l' statusCode iter body σ) as [_ H].
  cbv zeta in H. unfold isWritten, isDone in *.
  destruct (WriteResponse l' statusCode iter body σ).1.
  - by rewrite H.
  - destruct H as (rw & Hl' & Hrw & ->).
    destruct (decide (l = l')) as [-> | Hne].
    + rewrite list_lookup_insert_eq; [done |]. by eapply lookup_lt_Some.
    + by rewrite list_lookup_insert_ne.
Qed.

Lemma runEmits_registry env σ :
  globalResponseWriters (runEmits env σ) = globalResponseWriters σ.
Proof.
  unfold runEmits. revert σ. induction env as [| e env IH]; intros σ; [done |].
  cbn [foldl]. rewrite IH. apply Emit_handles_registry.
Qed.

(** Deliveries keep [written] and [done] of a handle in step. *)
Lemma runEmits_written_done l env σ :
  isWritten l σ = isDone l σ →
  isWritten l (runEmits env σ) = isDone l (runEmits env σ).
Proof.
  unfold runEmits. revert σ. induction env as [| e env IH]; intros σ Hinv; [done |].
  cbn [foldl]. apply IH. unfold Emit. destruct (Data e.1); [| done].
  destruct (GetResponseWriter _ σ); [| done].
  by apply written_done_after_write.
Qed.

(** A request that is read, encoded and published leaves its handler
    blocked on a fresh, unwritten handle that the registry points to. *)
Lemma ingress_blocks a c r o σ body :
  inBody r = Some body → newEventErr o = false → publishErr o = false →
  let l := List.length (handles σ) in
  let evt := eventOf a (payloadOf a r (uuid o) body) in
  ∃ σ1,
    handleRequest_ingress a c r o σ
      = ([OpStore (uuid o) l; OpPublish evt; OpSelect], σ1, Blocked l (uuid o)) ∧
    globalResponseWriters σ1 = <[uuid o := l]> (globalResponseWriters σ) ∧
    isWritten l σ1 = false ∧ isDone l σ1 = false ∧
    bus σ1 = (bus σ ++ [evt])%list ∧ writers σ1 = writers σ.
Proof.
  intros Hb He Hp l evt. unfold handleRequest_ingress. rewrite Hb, He, Hp.
  eexists. split; [reflexivity |]. cbn.
  unfold isWritten, isDone. cbn.
  rewrite !list_lookup_middle by done. done.
Qed.

Lemma callsAt_call c k σ wr :
  writers σ !! c = Some wr → callsAt c (call c k σ) = (calls wr ++ [k])%list.
Proof.
  intros Hc. unfold callsAt, call. cbn.
  rewrite list_lookup_alter_eq, Hc. done.
Qed.

Lemma writers_call_lookup c k σ wr :
  writers σ !! c = Some wr → writers (call c k σ) !! c = Some (record k wr).
Proof. intros Hc. unfold call. cbn. by rewrite list_lookup_alter_eq, Hc. Qed.

(** C3.  When the request has been published and, with the deliveries
    that ran meanwhile, its handle's [done] is still open once 30 seconds
    have passed, [handleRequest] returns after removing the registry entry
    and writing status 200 and the body "Request processed" on the
    connection. *)
Theorem timeout_fallback a c r o env elapsed coin σ body :
  inBody r = Some body → newEventErr o = false → publishErr o = false →
  let l := List.length (handles σ) in
  let σ2 := runEmits env (handleRequest_ingress a c r o σ).1.2 in
  isDone l σ2 = false →
  responseTimeout ≤ elapsed →
  ∃ ops σ3,
    handleRequest a c r o env elapsed coin σ = Some (ops, σ3) ∧
    ops = [OpStore (uuid o) l;
           OpPublish (eventOf a (payloadOf a r (uuid o) body));
           OpSelect;
           OpDelete (uuid o);
           OpReply (WriteHeader 200);
           OpReply (Write "Request processed")] ∧
    σ3 = call c (Write "Request processed")
           (call c (WriteHeader 200) (Delete (uuid o) σ2)) ∧
    globalResponseWriters σ3 !! uuid o = None ∧
    (∀ wr, writers σ2 !! c = Some wr →
           callsAt c σ3
             = (calls wr ++ [WriteHeader 200; Write "Request processed"])%list).
Proof.
  intros Hb He Hp l σ2 Hdone Hel. subst σ2.
  destruct (ingress_blocks a c r o σ body Hb He Hp) as (σ1 & Hin & Hreg & Hw & Hd & _).
  cbv zeta in Hin. fold l in Hin, Hw, Hd.
  unfold handleRequest. rewrite Hin in *. cbn [fst snd] in *.
  set (σ2 := runEmits env σ1) in *.
  assert (isWritten l σ2 = false) as Hw2.
  { unfold σ2. rewrite runEmits_written_done; [done | congruence]. }
  rewrite Hdone. unfold select.
  destruct (Z.leb_spec responseTimeout elapsed); [| lia].
  unfold handleRequest_resume.
  replace (isWritten l (Delete (uuid o) σ2)) with false by done.
  cbn [negb]. eexists _, _. split; [reflexivity |].
  split; [done |]. split; [done |]. split.
  - cbn. apply lookup_delete_eq.
  - intros wr Hc.
    erewrite callsAt_call; [| by apply writers_call_lookup].
    cbn. by rewrite <- app_assoc.
Qed.

(** C4.  When publishing fails, [handleRequest] returns at once, whatever
    the time and the deliveries: it has called [Publish] once, never
    entered the [select], removed the registry entry and answered with
    the error 500 "Failed to process request"; the bus holds no event of
    the request. *)
Theorem publish_failure a c r o env elapsed coin σ body :
  inBody r = Some body → newEventErr o = false → publishErr o = true →
  let l := List.length (handles σ) in
  let k := Error "Failed to process request" 500 in
  ∃ ops σ',
    handleRequest a c r o env elapsed coin σ = Some (ops, σ') ∧
    ops = [OpStore (uuid o) l;
           OpPublish (eventOf a (payloadOf a r (uuid o) body));
           OpDelete (uuid o);
           OpReply k] ∧
    count isPublish ops = 1%nat ∧
    count isSelect ops = 0%nat ∧
    globalResponseWriters σ' = delete (uuid o) (globalResponseWriters σ) ∧
    globalResponseWriters σ' !! uuid o = None ∧
    bus σ' = bus σ ∧
    (∀ wr, writers σ !! c = Some wr → callsAt c σ' = (calls wr ++ [k])%list).
Proof.
  intros Hb He Hp l k. unfold handleRequest, handleRequest_ingress.
  rewrite Hb, He, Hp. eexists _, _. split; [reflexivity |].
  split; [done |]. split; [done |]. split; [done |].
  assert (delete (uuid o) (<[uuid o := l]> (globalResponseWriters σ))
          = delete (uuid o) (globalResponseWriters σ)) as Hdel
    by apply delete_insert_eq.
  split; [exact Hdel |]. split; [cbn; apply lookup_delete_eq |].
  split; [done |].
  intros wr Hc. by apply callsAt_call.
Qed.

(** C7.  [handleRequest] returns once the timer has fired, if not before;
    and whenever it returns after having stored the request's handle, it
    has deleted the registry entry exactly once and the registry is what
    it was before the request with that ID removed: the ID is gone and
    the registry has not grown. *)
Theorem registry_entry_removed_once a c r o env elapsed coin σ :
  (responseTimeout ≤ elapsed →
     is_Some (handleRequest a c r o env elapsed coin σ)) ∧
  (∀ ops σ',
      handleRequest a c r o env elapsed coin σ = Some (ops, σ') →
      count (isStore (uuid o)) ops = 1%nat →
      count (isDelete (uuid o)) ops = 1%nat ∧
      globalResponseWriters σ' = delete (uuid o) (globalResponseWriters σ) ∧
      globalResponseWriters σ' !! uuid o = None ∧
      (size (globalResponseWriters σ') ≤ size (globalResponseWriters σ))%nat).
Proof.
  assert (∀ l, delete (uuid o) (<[uuid o := l]> (globalResponseWriters σ))
               = delete (uuid o) (globalResponseWriters σ)) as Hdel
    by (intros; apply delete_insert_eq).
  assert (∀ g : gmap string nat,
             g = delete (uuid o) (globalResponseWriters σ) →
             g = delete (uuid o) (globalResponseWriters σ) ∧
             g !! uuid o = None ∧
             (size g ≤ size (globalResponseWriters σ))%nat) as Hfin.
  { intros g ->. split; [done |]. split; [apply lookup_delete_eq |].
    apply map_subseteq_size, delete_subseteq. }
  unfold handleRequest, handleRequest_ingress.
  destruct (inBody r) as [body |]; [| split; [by eexists | by intros ?? [= <- <-]]].
  destruct (newEventErr o); [split; [by eexists | by intros ?? [= <- <-]] |].
  destruct (publishErr o).
  - split; [by eexists |]. intros ops σ' [= <- <-] _.
    split; [cbn; by rewrite bool_decide_true |]. apply Hfin, Hdel.
  - set (l := List.length (handles σ)).
    set (σ1 := setBus _ _).
    assert (globalResponseWriters (runEmits env σ1)
            = <[uuid o := l]> (globalResponseWriters σ)) as Hreg
      by (rewrite runEmits_registry; done).
    split.
    + intros Hel. unfold select.
      destruct (Z.leb_spec responseTimeout elapsed); [| lia].
      destruct (isDone l _), coin; cbn;
        try destruct (negb (isWritten l _)); by eexists.
    + intros ops σ'. destruct (select _ _ _) as [sc |]; [| done].
      destruct sc; cbn.
      * intros [= <- <-] _. split; [cbn; by rewrite bool_decide_true |].
        apply Hfin. cbn. by rewrite Hreg.
      * destruct (negb (isWritten l _)); intros [= <- <-] _;
          (split; [cbn; by rewrite bool_decide_true |]);
          apply Hfin; cbn; by rewrite Hreg.
Qed.

End Listener.

(** C2, the claim as worded, fails.  Run 1 of the samples: the emitter
    holds the handle of request "req-1", the handler times out and writes
    the fallback, and the emitter's [WriteResponse] is then not rejected: it
    returns no error and writes a second status and a second body on the
    connection.  Run 2: a response delivered again after the handler has
    returned is rejected with "no response writer found for request ID
    req-1", not with "response already written". *)
Lemma second_write_goes_through :
  Sample.heldHandle = Some 0%nat ∧
  Sample.lateWrite.1 = None ∧
  Server.callsAt 0 Sample.lateWrite.2 =
    [Server.WriteHeader 200; Server.Write "Request processed";
     Server.HeaderSet "Content-Type" "text/plain";
     Server.WriteHeader 200; Server.Write "Relayed by NodeA (hop 1)"] ∧
  Server.count Server.isBodyWrite (Server.callsAt 0 Sample.lateWrite.2) = 2%nat ∧
  Sample.firstDelivery.1 = None ∧
  Sample.redelivery.1 =
    Some (Server.Errorf "no response writer found for request ID req-1") ∧
  Sample.redelivery.1 ≠ Some (Server.Errorf "response already written").
Proof.
  repeat split; try (vm_compute; reflexivity).
  vm_compute. discriminate.
Qed.

(** C2 as the code has it, on Run 2 of the samples: the first delivery
    succeeds, the handler returns, and every later attempt is rejected and
    changes nothing. *)
Lemma write_once_witness :
  Server.WriteResponse 0 200 Sample.responseIter "Relayed by NodeA (hop 1)"
    Sample.afterIngress = (None, Sample.firstDelivery.2) ∧
  Server.WriteResponse 0 200 Sample.responseIter "Relayed by NodeA (hop 1)"
    Sample.afterDone
    = (Some (Server.Errorf "response already written"), Sample.afterDone) ∧
  Server.handleRequest_resume Server.CaseTimeout 0 0 "req-1" Sample.afterDone
    = ([Server.OpDelete "req-1"], Server.Delete "req-1" Sample.afterDone).
Proof.
  assert (Server.WriteResponse 0 200 Sample.responseIter "Relayed by NodeA (hop 1)"
            Sample.afterIngress = (None, Sample.firstDelivery.2)) as Hfirst
    by (vm_compute; reflexivity).
  split; [exact Hfirst |].
  destruct (write_once 0 200 Sample.responseIter "Relayed by NodeA (hop 1)"
              Sample.afterIngress Sample.firstDelivery.2 Sample.afterDone Hfirst
              (rtc_once _ _ (Server.step_resume Server.CaseDone 0 0 "req-1"
                               Sample.firstDelivery.2)))
    as (Hw & Ht & _).
  split; [apply Hw | apply Ht].
Defined.

(** C3 at the sample request when no response ever arrives. *)
Lemma timeout_fallback_witness :
  ∃ ops σ3,
    Server.handleRequest Sample.adapter 0 Sample.inbound Sample.oracleOk []
      Server.responseTimeout false Sample.world0 = Some (ops, σ3) ∧
    Server.callsAt 0 σ3 = [Server.WriteHeader 200; Server.Write "Request processed"] ∧
    Server.globalResponseWriters σ3 !! "req-1" = None.
Proof.
  destruct (timeout_fallback Sample.adapter 0 Sample.inbound Sample.oracleOk []
              Server.responseTimeout false Sample.world0 "hello"
              eq_refl eq_refl eq_refl eq_refl)
    as (ops & σ3 & Hrun & _ & _ & Hreg & Hcalls); [vm_compute; discriminate |].
  exists ops, σ3. split; [exact Hrun |]. split; [| exact Hreg].
  apply (Hcalls {| Server.calls := []; Server.writeFails := false |}).
  reflexivity.
Defined.

(** C4 at the sample request when the bus rejects the event. *)
Lemma publish_failure_witness :
  ∃ ops σ',
    Server.handleRequest Sample.adapter 0 Sample.inbound Sample.oraclePublishFails []
      0 false Sample.world0 = Some (ops, σ') ∧
    Server.count Server.isPublish ops = 1%nat ∧
    Server.count Server.isSelect ops = 0%nat ∧
    Server.globalResponseWriters σ' !! "req-1" = None ∧
    Server.callsAt 0 σ' = [Server.Error "Failed to process request" 500].
Proof.
  destruct (publish_failure Sample.adapter 0 Sample.inbound Sample.oraclePublishFails []
              0 false Sample.world0 "hello" eq_refl eq_refl eq_refl)
    as (ops & σ' & Hrun & _ & Hpub & Hsel & _ & Hreg & _ & Hcalls).
  exists ops, σ'. split; [exact Hrun |]. split; [exact Hpub |].
  split; [exact Hsel |]. split; [exact Hreg |].
  apply (Hcalls {| Server.calls := []; Server.writeFails := false |}).
  reflexivity.
Defined.

(** C7 at the sample request when its response arrives at once. *)
Lemma registry_entry_removed_once_witness :
  ∃ ops σ',
    Server.handleRequest Sample.adapter 0 Sample.inbound Sample.oracleOk
      [(Sample.response, Sample.responseIter)] 0 false Sample.world0
      = Some (ops, σ') ∧
    Server.count (Server.isDelete "req-1") ops = 1%nat ∧
    Server.globalResponseWriters σ' !! "req-1" = None.
Proof.
  eexists _, _. split; [vm_compute; reflexivity |].
  destruct (registry_entry_removed_once Sample.adapter 0 Sample.inbound Sample.oracleOk
              [(Sample.response, Sample.responseIter)] 0 false Sample.world0)
    as [_ H].
  edestruct H as (Hdel & _ & Hnone & _); [vm_compute; reflexivity | vm_compute; reflexivity |].
  split; [exact Hdel | exact Hnone].
Defined.

(** * Further properties of the code *)

(** ** Decimal rendering and parsing *)

Section DecimalRoundTrip.

Lemma pretty_N_char_digit d :
  (d < 10)%N →
  Go.isDigit (pretty_N_char d) = true ∧ Go.digitVal (pretty_N_char d) = Z.of_N d.
Proof.
  intros Hd.
  assert (d = 0 ∨ d = 1 ∨ d = 2 ∨ d = 3 ∨ d = 4 ∨ d = 5 ∨ d = 6 ∨ d = 7
          ∨ d = 8 ∨ d = 9)%N as Hcases by lia.
  repeat destruct Hcases as [-> | Hcases]; try subst d; by split.
Qed.

Lemma parseDigits_pretty_go x s :
  Go.parseDigits 0 (pretty_N_go x s) = Go.parseDigits (Z.of_N x) s.
Proof.
  revert s. induction (N.lt_wf_0 x) as [x _ IH]; intros s.
  destruct (decide (x = 0)%N) as [-> | Hx]; [by rewrite pretty_N_go_0 |].
  rewrite pretty_N_go_step by lia.
  rewrite IH by (apply N.div_lt; lia).
  destruct (pretty_N_char_digit (x `mod` 10)) as [Hd Hv];
    [apply N.mod_lt; lia |].
  cbn [Go.parseDigits]. rewrite Hd, Hv. f_equal.
  pose proof (N.div_mod x 10 ltac:(lia)) as Hdm. lia.
Qed.

Lemma pretty_go_starts_with_digit x s :
  (0 < x)%N → ∃ c s', pretty_N_go x s = String c s' ∧ Go.isDigit c = true.
Proof.
  revert s. induction (N.lt_wf_0 x) as [x _ IH]; intros s Hx.
  rewrite pretty_N_go_step by done.
  destruct (decide (x `div` 10 = 0)%N) as [-> | Hq].
  - rewrite pretty_N_go_0. eexists _, _. split; [done |].
    apply pretty_N_char_digit, N.mod_lt. lia.
  - apply IH; [apply N.div_lt; lia | by apply N.neq_0_lt_0].
Qed.

Lemma Atoi_unsigned c s :
  Go.isDigit c = true →
  Go.Atoi (String c s) =
    match Go.parseDigits 0 (String c s) with
    | Some n => if (Go.minInt <=? n) && (n <=? Go.maxInt) then Some n else None
    | None => None
    end.
Proof.
  destruct c as [[] [] [] [] [] [] [] []]; try discriminate; reflexivity.
Qed.

Lemma Atoi_pretty_pos p :
  Go.parseDigits 0 (pretty (N.pos p)) = Some (Z.pos p) ∧
  ∃ c s', pretty (N.pos p) = String c s' ∧ Go.isDigit c = true.
Proof.
  unfold pretty, pretty_N. rewrite decide_False by done.
  split; [by rewrite parseDigits_pretty_go |].
  apply pretty_go_starts_with_digit. lia.
Qed.

(** [strconv.Atoi] reads back what [strconv.Itoa] renders, for every
    value of an [int]. *)
Theorem Atoi_Itoa z :
  Go.minInt ≤ z ≤ Go.maxInt → Go.Atoi (Go.Itoa z) = Some z.
Proof.
  intros Hz. destruct z as [| p | p]; [reflexivity | |].
  - destruct (Atoi_pretty_pos p) as (Hp & c & s' & Hs & Hc).
    change (Go.Itoa (Z.pos p)) with (pretty (N.pos p)).
    rewrite Hs, Atoi_unsigned by done. rewrite <- Hs, Hp.
    destruct (Z.leb_spec Go.minInt (Z.pos p)); [| lia].
    destruct (Z.leb_spec (Z.pos p) Go.maxInt); [done | lia].
  - destruct (Atoi_pretty_pos p) as (Hp & c & s' & Hs & Hc).
    change (Go.Itoa (Z.neg p)) with (String "-" (pretty (N.pos p))).
    unfold Go.Atoi. rewrite Hs at 1. rewrite Hp.
    change (- Z.pos p) with (Z.neg p).
    destruct (Z.leb_spec Go.minInt (Z.neg p)); [| lia].
    destruct (Z.leb_spec (Z.neg p) Go.maxInt); [done | lia].
Qed.

End DecimalRoundTrip.

Lemma Atoi_Itoa_witness : Go.Atoi (Go.Itoa 10) = Some 10.
Proof. apply (Atoi_Itoa 10). vm_compute. split; discriminate. Defined.

(** ** The hop count along a chain of relay nodes *)

Section HopChain.

Lemma firstValues_lookup (m : gmap string (list string)) k :
  Server.firstValues m !! k = m !! k ≫= head.
Proof. unfold Server.firstValues. apply lookup_omap. Qed.

(** X1.  The hop count a relay node puts on a forward is what the next
    node reads back plus one: whenever the next adapter receives the
    [X-Hop-Count] header as it was sent, the payload it builds has hop count
    [hopCount + 1].  The exception is the largest [int], after which the
    count wraps to the smallest one. *)
Theorem hop_count_advances net iter nextHop payload hopCount nodeName :
  urlParses net (nextHop ++ Request.Path payload) = true →
  Go.minInt ≤ hopCount ≤ Go.maxInt →
  ∃ req,
    Relay.forwardRequest net iter nextHop payload hopCount nodeName
      = Relay.Sent req (Do net req) ∧
    ∀ a r id body,
      Server.inHeader r !! "X-Hop-Count" = reqHeader req !! "X-Hop-Count" →
      let next := Relay.hopCountOf (Server.payloadOf a r id body) in
      (hopCount < Go.maxInt → next = hopCount + 1) ∧
      (hopCount = Go.maxInt → next = Go.minInt).
Proof.
  intros Hurl Hrange. unfold Relay.forwardRequest. rewrite Hurl. cbn [negb].
  eexists. split; [reflexivity |].
  intros a r id body Hhdr.
  cbn [reqHeader] in Hhdr.
  rewrite lookup_Header_Set_ne, lookup_Header_Set_eq in Hhdr by done.
  unfold Relay.hopCountOf, Server.payloadOf. cbn [Request.Headers].
  rewrite firstValues_lookup, Hhdr. cbn. rewrite Atoi_Itoa by done.
  split.
  - intros Hlt. apply wrapInt_in_range. lia.
  - intros ->. reflexivity.
Qed.

End HopChain.

Lemma hop_count_advances_witness :
  ∃ req,
    Relay.forwardRequest Sample.net [] "http://node-b:8080" Sample.payloadFresh 1 "NodeA"
      = Relay.Sent req (Some 200) ∧
    Relay.hopCountOf
      (Server.payloadOf Sample.adapter
         {| Server.inMethod := "POST"; Server.inPath := "/api/test";
            Server.inQuery := ∅; Server.inHeader := reqHeader req;
            Server.inBody := Some "x"; Server.inRemoteAddr := "10.0.0.8:4000";
            Server.inTLS := false |} "req-2" "x") = 2.
Proof.
  destruct (hop_count_advances Sample.net [] "http://node-b:8080" Sample.payloadFresh
              1 "NodeA" eq_refl) as (req & Hsent & Hnext).
  { vm_compute. split; discriminate. }
  exists req. split; [exact Hsent |].
  apply (Hnext Sample.adapter
           {| Server.inMethod := "POST"; Server.inPath := "/api/test";
              Server.inQuery := ∅; Server.inHeader := reqHeader req;
              Server.inBody := Some "x"; Server.inRemoteAddr := "10.0.0.8:4000";
              Server.inTLS := false |} "req-2" "x" eq_refl).
  vm_compute. reflexivity.
Defined.

(** ** The counters of the relay *)

Section RelayCounters.
Import Relay.

Lemma wrapUint64_idem z : Go.wrapUint64 (Go.wrapUint64 z) = Go.wrapUint64 z.
Proof. unfold Go.wrapUint64. apply Z.mod_mod. lia. Qed.

Lemma balanced_step (f : AdapterStats → AdapterStats) s :
  f = incForwarded ∨ f = incDropped ∨ f = incErrors →
  balanced s → balanced (f (incReceived s)).
Proof.
  unfold balanced.
  intros [-> | [-> | ->]] Hb;
    unfold incForwarded, incDropped, incErrors, incReceived;
    cbn [received forwarded dropped errors];
    revert Hb; generalize (received s) (forwarded s) (dropped s) (errors s);
    unfold Go.wrapUint64; change (2 ^ 64) with 18446744073709551616;
    intros r f d e Hb; Z.div_mod_to_equations; lia.
Qed.

Lemma statsOf_bump f r r' st :
  statsOf (bump f r st) r' =
    if decide (stats r' = stats r) then f (statsOf st r') else statsOf st r'.
Proof.
  unfold statsOf, bump. cbn. case_decide as Heq.
  - by rewrite Heq, lookup_insert_eq.
  - by rewrite lookup_insert_ne.
Qed.

Lemma forwardTask_bump net iter cfg r p hc st :
  (forwardTask net iter cfg r p hc st).2 = bump incErrors r st ∨
  (forwardTask net iter cfg r p hc st).2 = bump incForwarded r st.
Proof. unfold forwardTask. cbn. destruct (forwardFailed _); auto. Qed.

(** One event: received goes up by one, and one of forwarded, dropped and
    errors goes up by one, on the total and on the event's route. *)
Lemma handleEvent_bumps net order cfg respEventErr st evt :
  ∃ f, (f = incForwarded ∨ f = incDropped ∨ f = incErrors) ∧
       handleEvent net order cfg respEventErr st evt
         = bump f (routeFor cfg evt) (bump incReceived (routeFor cfg evt) st).
Proof.
  unfold handleEvent, processEvent.
  destruct (Data evt) as [payload |]; [| exists incErrors; auto].
  destruct (maxHops cfg <? hopCountOf payload); [exists incDropped; auto |].
  assert (∀ es, settle net order cfg
                  (GoForward (routeFor cfg evt) payload (hopCountOf payload) :: es)
                  (bump incReceived (routeFor cfg evt) st)
                = settle net order cfg es
                    (forwardTask net (order payload) cfg (routeFor cfg evt) payload
                       (hopCountOf payload)
                       (bump incReceived (routeFor cfg evt) st)).2) as Hcons by done.
  destruct (forwardTask_bump net (order payload) cfg (routeFor cfg evt) payload
              (hopCountOf payload) (bump incReceived (routeFor cfg evt) st))
    as [Hf | Hf];
    [exists incErrors | exists incForwarded];
    (split; [auto |]); destruct respEventErr; cbn [fst snd];
    rewrite Hcons, Hf; reflexivity.
Qed.

(** X2.  Accounting.  When the relay has handled a stream of events and
    the forwards they started have finished, [received] has grown by the
    number of events (modulo 2^64), and if the counters were balanced
    before (received = forwarded + dropped + errors, modulo 2^64), on the
    total and on every route, they are balanced again: each event is
    counted exactly once as forwarded, dropped or failed. *)
Theorem counters_balanced net order cfg respEventErr evts st :
  balanced (totalStats st) →
  (∀ r, balanced (statsOf st r)) →
  let st' := handleEvents net order cfg respEventErr evts st in
  balanced (totalStats st') ∧
  (∀ r, balanced (statsOf st' r)) ∧
  Go.wrapUint64 (received (totalStats st'))
    = Go.wrapUint64 (received (totalStats st) + Z.of_nat (List.length evts)).
Proof.
  cbv zeta. unfold handleEvents. revert st.
  induction evts as [| evt evts IH]; intros st Ht Hr; cbn [foldl List.length].
  - split; [done |]. split; [done |].
    change (Z.of_nat 0) with 0. by rewrite Z.add_0_r.
  - destruct (handleEvent_bumps net order cfg respEventErr st evt)
      as (f & Hf & Hev).
    destruct (IH (handleEvent net order cfg respEventErr st evt))
      as (IH1 & IH2 & IH3).
    + rewrite Hev. cbn [totalStats bump]. by apply balanced_step.
    + intros r. rewrite Hev, !statsOf_bump.
      case_decide; [by apply balanced_step | done].
    + split; [done |]. split; [done |].
      rewrite IH3, Hev.
      assert (received (totalStats (bump f (routeFor cfg evt)
                 (bump incReceived (routeFor cfg evt) st)))
              = Go.wrapUint64 (received (totalStats st) + 1)) as ->.
      { destruct Hf as [-> | [-> | ->]]; reflexivity. }
      unfold Go.wrapUint64. change (2 ^ 64) with 18446744073709551616.
      generalize (received (totalStats st)). intros r0.
      generalize (List.length evts). intros n.
      Z.div_mod_to_equations. lia.
Qed.

End RelayCounters.

Lemma counters_balanced_witness :
  let st' := Relay.handleEvents Sample.net (λ p, map_to_list (Request.Headers p))
               Sample.cfg false
               [Sample.eventOf Sample.payloadFresh; Sample.eventOf Sample.payloadOver]
               Sample.st0 in
  Relay.balanced (Relay.totalStats st') ∧
  Relay.received (Relay.totalStats st') = 2.
Proof.
  destruct (counters_balanced Sample.net (λ p, map_to_list (Request.Headers p))
              Sample.cfg false
              [Sample.eventOf Sample.payloadFresh; Sample.eventOf Sample.payloadOver]
              Sample.st0) as (H1 & _ & H3).
  - reflexivity.
  - intros r. reflexivity.
  - cbv zeta. split; [exact H1 | reflexivity].
Defined.

(** ** Writing a response *)

Section WriteResponseFacts.
Import Server.

Lemma lookup_header_calls c (ks : list (string * string)) σ c' :
  writers (foldl (λ σ kv, call c (HeaderSet kv.1 kv.2) σ) σ ks) !! c' =
    if decide (c' = c)
    then (λ wr, {| calls := calls wr ++ ((λ kv, HeaderSet kv.1 kv.2) <$> ks);
                   writeFails := writeFails wr |}) <$> writers σ !! c'
    else writers σ !! c'.
Proof.
  revert σ. induction ks as [| k ks IH]; intros σ; cbn [foldl fmap list_fmap].
  - case_decide; [| done]. destruct (writers σ !! c') as [[cs wf] |]; [| done].
    cbn. by rewrite app_nil_r.
  - rewrite IH. unfold call. cbn [writers setWriters].
    case_decide as Hc; [subst c' |].
    + rewrite list_lookup_alter_eq.
      destruct (writers σ !! c) as [[cs wf] |]; [| done].
      cbn. by rewrite <- app_assoc.
    + by rewrite list_lookup_alter_ne.
Qed.

Lemma bus_header_calls c (ks : list (string * string)) σ :
  bus (foldl (λ σ kv, call c (HeaderSet kv.1 kv.2) σ) σ ks) = bus σ.
Proof. revert σ. induction ks as [| k ks IH]; intros σ; [done |]. cbn. by rewrite IH. Qed.

(** What [WriteResponse] does on an unwritten handle. *)
Lemma WriteResponse_unwritten l statusCode iter body σ rw wr :
  handles σ !! l = Some rw → written rw = false →
  writers σ !! w rw = Some wr →
  let out := WriteResponse l statusCode iter body σ in
  writers out.2 !! w rw
    = Some {| calls := calls wr ++ responseCalls statusCode iter body;
              writeFails := writeFails wr |} ∧
  (∀ c', c' ≠ w rw → writers out.2 !! c' = writers σ !! c') ∧
  globalResponseWriters out.2 = globalResponseWriters σ ∧
  bus out.2 = bus σ ∧
  if Go.nonEmpty body && writeFails wr
  then out.1 = Some WriteError ∧ handles out.2 = handles σ
  else out.1 = None ∧
       handles out.2 = <[l := {| w := w rw; requestID := requestID rw;
                                 written := true; done := true |}]> (handles σ).
Proof.
  intros Hl Hw Hwr. unfold WriteResponse. rewrite Hl, Hw.
  set (σh := foldl _ σ iter).
  assert (writers σh !! w rw
          = Some {| calls := calls wr ++ ((λ kv, HeaderSet kv.1 kv.2) <$> iter);
                    writeFails := writeFails wr |}) as Hh.
  { unfold σh. rewrite lookup_header_calls, decide_True, Hwr by done. done. }
  assert (∀ c', c' ≠ w rw → writers σh !! c' = writers σ !! c') as Hf.
  { intros c' Hne. unfold σh. by rewrite lookup_header_calls, decide_False. }
  assert (writeFailsAt (w rw) (call (w rw) (WriteHeader statusCode) σh)
          = writeFails wr) as Hfail.
  { unfold writeFailsAt, call. cbn. by rewrite list_lookup_alter_eq, Hh. }
  unfold responseCalls.
  destruct (Go.nonEmpty body); cbn [andb];
    [rewrite Hfail; destruct (writeFails wr) eqn:Hwf |];
    cbn [fst snd]; unfold call, record; cbn;
    rewrite ?list_lookup_alter_eq, ?Hh; cbn;
    rewrite <- ?app_assoc; cbn; rewrite ?app_nil_r;
    (split; [done |]);
    (split; [intros c' Hne; rewrite !list_lookup_alter_ne by done; by apply Hf |]);
    unfold σh; rewrite ?registry_calls, ?bus_header_calls, ?handles_calls; done.
Qed.





(** X4.  When the body write fails, [WriteResponse] returns that error
    after the headers and the status have gone out, and leaves the handle
    unwritten with [done] open: the handler is not woken, and a further
    [WriteResponse] on the handle is not rejected but writes again. *)
Theorem WriteResponse_failed_write_stays_open l statusCode iter body σ rw wr :
  handles σ !! l = Some rw → written rw = false →
  writers σ !! w rw = Some wr → writeFails wr = true →
  Go.nonEmpty body = true →
  let out := WriteResponse l statusCode iter body σ in
  out.1 = Some WriteError ∧
  isWritten l out.2 = false ∧ isDone l out.2 = isDone l σ ∧
  callsAt (w rw) out.2 = (calls wr ++ responseCalls statusCode iter body)%list ∧
  ∀ statusCode' iter' body',
    Go.nonEmpty body' = true →
    let again := WriteResponse l statusCode' iter' body' out.2 in
    again.1 = Some WriteError ∧
    callsAt (w rw) again.2 =
      (calls wr ++ responseCalls statusCode iter body
                ++ responseCalls statusCode' iter' body')%list.
Proof.
  intros Hl Hw Hwr Hwf Hbody.
  destruct (WriteResponse_unwritten l statusCode iter body σ rw wr Hl Hw Hwr)
    as (Hc & _ & _ & _ & Hres).
  rewrite Hwf, Hbody in Hres. destruct Hres as [Herr Hh].
  cbv zeta. split; [done |].
  unfold isWritten, isDone, callsAt. rewrite Hh, Hc, Hl. cbn. rewrite Hw.
  split; [done |]. split; [done |]. split; [done |].
  intros statusCode' iter' body' Hbody'.
  destruct (WriteResponse_unwritten l statusCode' iter' body'
              (WriteResponse l statusCode iter body σ).2 rw _
              ltac:(by rewrite Hh) Hw Hc) as (Hc' & _ & _ & _ & Hres').
  cbn [writeFails] in Hres'. rewrite Hwf, Hbody' in Hres'.
  destruct Hres' as [Herr' _]. split; [done |].
  rewrite Hc'. cbn. by rewrite <- app_assoc.
Qed.

(** X5.  An [Emit] that returns an error other than that of the underlying
    write has changed nothing: not the connection, not the handle, not the
    registry. *)
Theorem Emit_error_changes_nothing evt iter σ e σ' :
  Emit evt iter σ = (Some e, σ') → e ≠ WriteError → σ' = σ.
Proof.
  unfold Emit, WriteResponse.
  destruct (Data evt) as [payload |]; [| by intros [= <- <-]].
  destruct (GetResponseWriter _ σ) as [l |]; [| by intros [= <- <-]].
  destruct (handles σ !! l) as [rw |]; [| by intros [= <- <-]].
  destruct (written rw); [by intros [= <- <-] |].
  destruct (Go.nonEmpty (Response.Body payload));
    [destruct (writeFailsAt _ _) |]; cbn; intros [= <- <-]; done.
Qed.

End WriteResponseFacts.


Lemma WriteResponse_failed_write_stays_open_witness :
  let out := Server.WriteResponse 0 200 Sample.responseIter "Relayed by NodeA (hop 1)"
               Sample.afterIngressBroken in
  out.1 = Some Server.WriteError ∧ Server.isWritten 0 out.2 = false.
Proof.
  destruct (WriteResponse_failed_write_stays_open 0 200 Sample.responseIter
              "Relayed by NodeA (hop 1)" Sample.afterIngressBroken
              {| Server.w := 0; Server.requestID := "req-1";
                 Server.written := false; Server.done := false |}
              {| Server.calls := []; Server.writeFails := true |}
              eq_refl eq_refl eq_refl eq_refl eq_refl) as (H1 & H2 & _).
  cbv zeta. split; [exact H1 | exact H2].
Defined.

Lemma Emit_error_changes_nothing_witness :
  (Server.Emit Sample.response Sample.responseIter Sample.world0).1
    = Some (Server.Errorf "no response writer found for request ID req-1") ∧
  (Server.Emit Sample.response Sample.responseIter Sample.world0).2 = Sample.world0.
Proof.
  split; [reflexivity |].
  apply (Emit_error_changes_nothing Sample.response Sample.responseIter Sample.world0
           (Server.Errorf "no response writer found for request ID req-1"));
    [reflexivity | discriminate].
Defined.

(** ** One reply per request *)

Section OneReply.
Import Server.







End OneReply.


(** ** From the request to the reply *)

Section RoundTrip.
Import Server.

Lemma ingress_handle a c r o σ body :
  inBody r = Some body → newEventErr o = false → publishErr o = false →
  let l := List.length (handles σ) in
  let σ1 := (handleRequest_ingress a c r o σ).1.2 in
  handleRequest_ingress a c r o σ
    = ([OpStore (uuid o) l;
        OpPublish (eventOf a (payloadOf a r (uuid o) body)); OpSelect],
       σ1, Blocked l (uuid o)) ∧
  handles σ1 !! l = Some {| w := c; requestID := uuid o;
                            written := false; done := false |} ∧
  globalResponseWriters σ1 !! uuid o = Some l ∧
  writers σ1 = writers σ.
Proof.
  intros Hb He Hp l σ1. subst σ1. unfold handleRequest_ingress.
  rewrite Hb, He, Hp. cbn.
  rewrite list_lookup_middle by done. by rewrite lookup_insert_eq.
Qed.

(** A response event for the request's ID, delivered while the handler
    waits, is written on the request's connection and nothing else is; the
    handler then returns and the registry entry is gone. *)
Lemma resolve_round_trip a c r o elapsed coin σ wr body resp iter p :
  inBody r = Some body → newEventErr o = false → publishErr o = false →
  writers σ !! c = Some wr → writeFails wr = false →
  Data resp = Some p → Response.RequestID p = uuid o →
  ∃ ops σ',
    handleRequest a c r o [(resp, iter)] elapsed coin σ = Some (ops, σ') ∧
    callsAt c σ'
      = (calls wr ++ responseCalls (Response.StatusCode p) iter (Response.Body p))%list ∧
    globalResponseWriters σ' !! uuid o = None.
Proof.
  intros Hb He Hp Hc Hwf Hd Hid.
  destruct (ingress_handle a c r o σ body Hb He Hp) as (Hin & Hl & Hreg & Hws).
  cbv zeta in *. unfold handleRequest. rewrite Hin.
  set (l := List.length (handles σ)) in *.
  set (σ1 := (handleRequest_ingress a c r o σ).1.2) in *.
  unfold runEmits. cbn [foldl fst snd]. unfold Emit at 1 2. rewrite Hd.
  unfold GetResponseWriter. rewrite Hid, Hreg.
  destruct (WriteResponse_unwritten l (Response.StatusCode p) iter
              (Response.Body p) σ1 _ wr Hl eq_refl)
    as (Hc' & _ & _ & _ & Hres); [by rewrite Hws |].
  rewrite Hwf, andb_false_r in Hres. destruct Hres as [_ Hh].
  cbn [w] in Hc'.
  set (σ2 := (WriteResponse l _ iter _ σ1).2) in *.
  assert (isDone l σ2 = true ∧ isWritten l σ2 = true) as [Hdone Hwritten].
  { unfold isDone, isWritten. rewrite Hh.
    rewrite list_lookup_insert_eq by (by eapply lookup_lt_Some). done. }
  rewrite Hdone.
  assert (∃ sc, select true elapsed coin = Some sc) as [sc ->].
  { unfold select. destruct (responseTimeout <=? elapsed), coin; eauto. }
  assert (handleRequest_resume sc c l (uuid o) σ2
          = ([OpDelete (uuid o)], Delete (uuid o) σ2)) as ->.
  { destruct sc; [done |]. unfold handleRequest_resume.
    replace (isWritten l (Delete (uuid o) σ2)) with true; done. }
  eexists _, _. split; [reflexivity |]. split.
  - unfold callsAt, Delete. cbn. by rewrite Hc'.
  - cbn. apply lookup_delete_eq.
Qed.



(** X8.  The relay's reply does not wait for the forward.  Whatever the
    network does, the event a request published makes [processEvent]
    publish exactly one response, and once that response is delivered the
    caller has received status 200 and the body "Relayed by <node> (hop
    <n>)", or "Max hops reached at <node>" when the hop count exceeds
    [maxHops]. *)
Theorem relay_reply_round_trip a c r o elapsed coin σ wr body cfg st iter :
  inBody r = Some body → newEventErr o = false → publishErr o = false →
  writers σ !! c = Some wr → writeFails wr = false →
  let payload := payloadOf a r (uuid o) body in
  let hc := Relay.hopCountOf payload in
  ∃ resp ops σ' text,
    List.filter (λ e, negb (Relay.isForward e))
      (Relay.processEvent cfg false (eventOf a payload) st).1 = [Relay.Publish resp] ∧
    handleRequest a c r o [(resp, iter)] elapsed coin σ = Some (ops, σ') ∧
    callsAt c σ'
      = (calls wr ++ ((λ kv, HeaderSet kv.1 kv.2) <$> iter)
                  ++ [WriteHeader 200; Write text])%list ∧
    text = (if Relay.maxHops cfg <? hc
            then "Max hops reached at " ++ Relay.nodeName cfg
            else "Relayed by " ++ Relay.nodeName cfg
                 ++ " (hop " ++ Go.Itoa hc ++ ")").
Proof.
  intros Hb He Hp Hc Hwf payload hc.
  unfold Relay.processEvent. cbn [Data eventOf WithMetadata NewEvent].
  fold payload. fold hc.
  destruct (Relay.maxHops cfg <? hc).
  - edestruct (resolve_round_trip a c r o elapsed coin σ wr body
                 (Relay.dropResponse cfg payload) iter)
      as (ops & σ' & Hrun & Hcalls & _); [done .. | reflexivity | reflexivity |].
    eexists _, ops, σ', _. split; [reflexivity |]. split; [exact Hrun |].
    split; [exact Hcalls | reflexivity].
  - edestruct (resolve_round_trip a c r o elapsed coin σ wr body
                 (Relay.ackResponse cfg payload hc) iter)
      as (ops & σ' & Hrun & Hcalls & _); [done .. | reflexivity | reflexivity |].
    eexists _, ops, σ', _. split; [reflexivity |]. split; [exact Hrun |].
    split; [exact Hcalls | reflexivity].
Qed.

End RoundTrip.


(** ** Start-up configuration of the relay *)

Section RelayConfig.
Import Relay.

Variable TrimSpace : string → string.

Example Split_pieces :
  Go.Split "," "a,,b," = ["a"; ""; "b"; ""] ∧ Go.Split "," "" = [""].
Proof. split; reflexivity. Qed.

Lemma parseCSV_fold (out : list string) (parts : list string) :
  foldl (λ (out : list string) p,
           let trimmed := TrimSpace p in
           if bool_decide (trimmed ≠ "") then (out ++ [trimmed])%list else out)
        out parts
  = (out ++ filter (λ t, t ≠ "") (TrimSpace <$> parts))%list.
Proof.
  revert out. induction parts as [| p parts IH]; intros out; cbn [foldl].
  - by rewrite app_nil_r.
  - rewrite IH. cbn [fmap list_fmap]. rewrite filter_cons.
    case_bool_decide as Hp.
    + rewrite decide_True by done. by rewrite <- app_assoc.
    + rewrite decide_False by naive_solver. done.
Qed.

(** X9.  [parseCSV] yields, in their order, the trimmed pieces between
    the commas that are not blank: an entry is never empty, and a value
    that is blank as a whole yields nothing. *)
Theorem parseCSV_entries value :
  parseCSV TrimSpace value =
    (if bool_decide (TrimSpace value = "") then []
     else filter (λ t, t ≠ "") (TrimSpace <$> Go.Split "," value)) ∧
  (∀ e, e ∈ parseCSV TrimSpace value ↔
        TrimSpace value ≠ "" ∧ e ≠ "" ∧
        ∃ piece, piece ∈ Go.Split "," value ∧ e = TrimSpace piece).
Proof.
  assert (parseCSV TrimSpace value =
            (if bool_decide (TrimSpace value = "") then []
             else filter (λ t, t ≠ "") (TrimSpace <$> Go.Split "," value))) as Heq.
  { unfold parseCSV. case_bool_decide; [done |]. by rewrite parseCSV_fold. }
  split; [exact Heq |]. intros e. rewrite Heq.
  case_bool_decide as Hv.
  - split; [by intros ?%elem_of_nil | by intros [? _]].
  - rewrite list_elem_of_filter, list_elem_of_fmap. split.
    + intros (He & piece & -> & Hpiece). eauto.
    + intros (_ & He & piece & Hpiece & ->). eauto.
Qed.

Lemma nextHops_length adapterPorts rawNextHops d :
  List.length (nextHops TrimSpace adapterPorts rawNextHops d) = List.length adapterPorts.
Proof. unfold nextHops. apply length_imap. Qed.

Lemma nextHops_nonempty adapterPorts rawNextHops d i h :
  d ≠ "" → nextHops TrimSpace adapterPorts rawNextHops d !! i = Some h → h ≠ "".
Proof.
  intros Hd. unfold nextHops. rewrite list_lookup_imap.
  destruct (adapterPorts !! i); [| done]. cbn.
  destruct (rawNextHops !! i) as [h' |]; [case_bool_decide |]; by intros [= <-].
Qed.

Lemma addRoute_ok nextHopList acc i port h :
  nextHopList !! i = Some h → h ≠ "" →
  routesOk acc → routesOk (addRoute TrimSpace nextHopList acc i port).
Proof.
  intros Hi Hh (Hpos & Hin & Hmap). unfold addRoute.
  case_bool_decide as Hp; [done |]. rewrite Hi.
  change (default "" (Some h)) with h.
  set (route := {| id := "http-server-" ++ TrimSpace port;
                   listenAddr := TrimSpace port; nextHop := h;
                   stats := List.length acc.2 |}).
  split; [| split]; cbn [fst snd].
  - intros k r Hk. apply lookup_app_Some in Hk as [Hk | [Hge Hk]]; [by apply Hpos |].
    apply list_lookup_singleton_Some in Hk as [Hk <-].
    cbn. split; [lia | done].
  - intros r Hr. apply elem_of_app in Hr as [Hr | Hr%list_elem_of_singleton].
    + destruct (Hin r Hr) as (r' & Hr' & Hl).
      destruct (decide (id route = id r)) as [Heq | Hne].
      * exists route. rewrite Heq, lookup_insert_eq. split; [done |].
        apply list_elem_of_lookup in Hr as [k Hk].
        destruct (Hpos k r Hk) as (_ & _ & _ & Hid).
        rewrite Hid in Heq. cbn in Heq. by simplify_eq.
      * exists r'. by rewrite lookup_insert_ne.
    + subst r. exists route. by rewrite lookup_insert_eq.
  - intros key r Hkey. destruct (decide (id route = key)) as [<- | Hne].
    + rewrite lookup_insert_eq in Hkey. injection Hkey as <-.
      split; [done |]. apply elem_of_app. right. apply list_elem_of_here.
    + rewrite lookup_insert_ne in Hkey by done.
      destruct (Hmap key r Hkey). split; [done |]. apply elem_of_app. by left.
Qed.

Lemma buildRoutesFrom_ok nextHopList adapterPorts i acc :
  (∀ j, (i ≤ j < i + List.length adapterPorts)%nat →
        ∃ h, nextHopList !! j = Some h ∧ h ≠ "") →
  routesOk acc →
  routesOk (buildRoutesFrom TrimSpace nextHopList i adapterPorts acc).
Proof.
  revert i acc. induction adapterPorts as [| port rest IH]; intros i acc Hhops Hok.
  - done.
  - cbn [buildRoutesFrom]. apply IH.
    + intros j Hj. apply Hhops. cbn. lia.
    + destruct (Hhops i) as (h & Hh & Hne); [cbn; lia |].
      by eapply addRoute_ok.
Qed.

Lemma buildRoutes_ok adapterPorts rawNextHops d :
  d ≠ "" →
  routesOk (buildRoutes TrimSpace adapterPorts
              (nextHops TrimSpace adapterPorts rawNextHops d)).
Proof.
  intros Hd. unfold buildRoutes. apply buildRoutesFrom_ok.
  - intros j Hj.
    destruct (lookup_lt_is_Some_2 (nextHops TrimSpace adapterPorts rawNextHops d) j)
      as [h Hh]; [rewrite nextHops_length; lia |].
    exists h. split; [done |]. by eapply nextHops_nonempty.
  - split; [| split]; cbn.
    + intros k r Hk. by rewrite lookup_nil in Hk.
    + intros r Hr. by apply elem_of_nil in Hr.
    + intros key r Hkey. by rewrite lookup_empty in Hkey.
Qed.

Lemma getEnv_nonempty env key def :
  getEnv env key def = (if bool_decide (Go.Getenv env key = "") then def
                        else Go.Getenv env key).
Proof. unfold getEnv. by repeat case_bool_decide. Qed.

Lemma getEnvInt_default env key def :
  getEnvInt env key def = default def (Go.Atoi (Go.Getenv env key)).
Proof.
  unfold getEnvInt. case_bool_decide as Hv; [by destruct (Go.Atoi _) |].
  by rewrite Hv.
Qed.

Lemma loadConfig_routes env cfg n :
  loadConfig TrimSpace env = Ready cfg n →
  routesOk (adapterRoutes cfg, routesInOrder cfg) ∧
  Go.Getenv env "NEXT_HOP" ≠ "" ∧
  maxHops cfg = getEnvInt env "MAX_HOPS" 10 ∧
  1 ≤ n.
Proof.
  unfold loadConfig.
  set (ports := match parseCSV _ _ with [] => _ | _ => _ end).
  case_bool_decide as Hnh; [done |].
  pose proof (buildRoutes_ok ports
                (parseCSV TrimSpace (getEnv env "NEXT_HOPS" ""))
                (getEnv env "NEXT_HOP" "") Hnh) as Hok.
  destruct (buildRoutes _ _ _) as [m rs]. cbn [fst snd] in *.
  destruct rs as [| r0 rest]; [done |].
  intros [= <- <-]. split; [exact Hok |]. cbn [maxHops].
  split.
  - rewrite getEnv_nonempty in Hnh. by case_bool_decide.
  - split; [done |]. destruct (_ <? 1) eqn:Hlt; [done |].
    by apply Z.ltb_ge in Hlt.
Qed.

(** X10.  When [main] gets as far as starting its workers, there is at
    least one worker; [NEXT_HOP] was set; [maxHops] is the integer in
    [MAX_HOPS], or 10 when that is unset, empty or no integer; the k-th
    route owns the k-th counters (no two routes share counters), listens on
    a non-empty address, has a non-empty next hop and carries the ID
    "http-server-<address>"; every route is found in [adapterRoutes] under
    its ID by a route on the same address, and [adapterRoutes] holds only
    routes of [routesInOrder], under their own ID. *)
Theorem loadConfig_ready env cfg workerCount :
  loadConfig TrimSpace env = Ready cfg workerCount →
  1 ≤ workerCount ∧
  Go.Getenv env "NEXT_HOP" ≠ "" ∧
  maxHops cfg = default 10 (Go.Atoi (Go.Getenv env "MAX_HOPS")) ∧
  (∀ k r, routesInOrder cfg !! k = Some r →
          stats r = k ∧ listenAddr r ≠ "" ∧ nextHop r ≠ "" ∧
          id r = "http-server-" ++ listenAddr r) ∧
  (∀ r, r ∈ routesInOrder cfg →
        ∃ r', adapterRoutes cfg !! id r = Some r' ∧ listenAddr r' = listenAddr r) ∧
  (∀ key r, adapterRoutes cfg !! key = Some r →
            id r = key ∧ r ∈ routesInOrder cfg).
Proof.
  intros Hload.
  destruct (loadConfig_routes env cfg workerCount Hload)
    as ((H1 & H2 & H3) & Hnh & Hmax & Hn).
  rewrite getEnvInt_default in Hmax. done.
Qed.

(** Without [NEXT_HOP] the relay does not start, whatever else is
    configured. *)
Theorem loadConfig_requires_next_hop env :
  Go.Getenv env "NEXT_HOP" = "" →
  loadConfig TrimSpace env = Fatal "NEXT_HOP environment variable required".
Proof.
  intros Hnh. unfold loadConfig.
  rewrite (getEnv_nonempty env "NEXT_HOP"), Hnh. done.
Qed.

(** X11.  Routing.  An event published by the adapter of a configured
    route is handled on a route with that adapter's ID and listen address;
    an event whose adapter ID is not in the table is handled on the first
    route. *)
Theorem events_reach_their_route env cfg workerCount :
  loadConfig TrimSpace env = Ready cfg workerCount →
  (∀ r payload,
      r ∈ routesInOrder cfg →
      let a := {| Server.addr := listenAddr r |} in
      let route := routeFor cfg (Server.eventOf a payload) in
      id route = Server.ID a ∧ listenAddr route = listenAddr r) ∧
  (∀ evt,
      adapterRoutes cfg !! default "" (Metadata evt !! "adapter_id") = None →
      routeFor cfg evt = route0 cfg).
Proof.
  intros Hload.
  destruct (loadConfig_routes env cfg workerCount Hload)
    as ((Hpos & Hin & Hmap) & _). cbn [fst snd] in *.
  split.
  - intros r payload Hr. cbv zeta.
    destruct (Hin r Hr) as (r' & Hr' & Hl).
    apply list_elem_of_lookup in Hr as [k Hk].
    destruct (Hpos k r Hk) as (_ & _ & _ & Hid).
    unfold routeFor, Server.eventOf, Server.ID.
    cbn [Metadata WithMetadata NewEvent Server.addr].
    rewrite lookup_insert_ne by done. rewrite lookup_insert_eq.
    change (default "" (Some ("http-server-" ++ listenAddr r)))
      with ("http-server-" ++ listenAddr r).
    rewrite <- Hid, Hr'. change (default (route0 cfg) (Some r')) with r'.
    split; [| done]. by destruct (Hmap _ _ Hr').
  - intros evt Hnone. unfold routeFor. by rewrite Hnone.
Qed.

End RelayConfig.

Example environ_loads :
  ∃ cfg,
    Relay.loadConfig Sample.trimSpace Sample.environ = Relay.Ready cfg 2 ∧
    Relay.routesInOrder cfg =
      [ {| Relay.id := "http-server-:8080"; Relay.listenAddr := ":8080";
           Relay.nextHop := "http://node-c:8080"; Relay.stats := 0 |};
        {| Relay.id := "http-server-:8081"; Relay.listenAddr := ":8081";
           Relay.nextHop := "http://node-b:8080"; Relay.stats := 1 |} ] ∧
    Relay.maxHops cfg = 10 ∧ Relay.nodeName cfg = "NodeA".
Proof. eexists. split; [vm_compute; reflexivity |]. repeat split. Qed.

Lemma loadConfig_ready_witness :
  ∃ cfg,
    Relay.loadConfig Sample.trimSpace Sample.environ = Relay.Ready cfg 2 ∧
    Relay.maxHops cfg = 10.
Proof.
  destruct (Relay.loadConfig Sample.trimSpace Sample.environ) as [msg | cfg n] eqn:Hload;
    [discriminate Hload |].
  exists cfg.
  destruct (loadConfig_ready Sample.trimSpace Sample.environ cfg n Hload)
    as (_ & _ & Hmax & _).
  split; [| exact Hmax]. f_equal. by injection Hload.
Defined.

Lemma loadConfig_requires_next_hop_witness :
  Relay.loadConfig Sample.trimSpace {["ADAPTER_PORTS" := ":8080"]}
    = Relay.Fatal "NEXT_HOP environment variable required".
Proof.
  apply (loadConfig_requires_next_hop Sample.trimSpace {["ADAPTER_PORTS" := ":8080"]}).
  reflexivity.
Defined.

Lemma events_reach_their_route_witness :
  ∃ cfg,
    Relay.loadConfig Sample.trimSpace Sample.environ = Relay.Ready cfg 2 ∧
    Relay.listenAddr
      (Relay.routeFor cfg
         (Server.eventOf {| Server.addr := ":8081" |} Sample.payloadFresh)) = ":8081".
Proof.
  destruct (Relay.loadConfig Sample.trimSpace Sample.environ) as [msg | cfg n] eqn:Hload;
    [discriminate Hload |].
  exists cfg.
  destruct (events_reach_their_route Sample.trimSpace Sample.environ cfg n Hload)
    as [Hroute _].
  split; [f_equal; by injection Hload |].
  apply (Hroute {| Relay.id := "http-server-:8081"; Relay.listenAddr := ":8081";
                   Relay.nextHop := "http://node-b:8080"; Relay.stats := 1 |}
           Sample.payloadFresh).
  injection Hload as <- _. apply list_elem_of_further, list_elem_of_here.
Defined.


Lemma relay_reply_round_trip_witness :
  ∃ resp ops σ',
    Server.handleRequest Sample.adapter 0 Sample.inbound Sample.oracleOk
      [(resp, [])] 0 false Sample.world0 = Some (ops, σ') ∧
    Server.callsAt 0 σ'
      = [Server.WriteHeader 200; Server.Write "Relayed by NodeA (hop 1)"].
Proof.
  destruct (relay_reply_round_trip Sample.adapter 0 Sample.inbound Sample.oracleOk
              0 false Sample.world0
              {| Server.calls := []; Server.writeFails := false |}
              "hello" Sample.cfg Sample.st0 []
              eq_refl eq_refl eq_refl eq_refl eq_refl)
    as (resp & ops & σ' & text & _ & H2 & H3 & H4).
  exists resp, ops, σ'. split; [exact H2 |].
  rewrite H3, H4. reflexivity.
Defined.

Example fmtMap_sorts_keys :
  Server.fmtMap (<["b" := "2"]> (<["a" := "1"]> {["c" := "3"]})) = "map[a:1 b:2 c:3]" ∧
  Server.fmtMap ∅ = "map[]".
Proof. split; vm_compute; reflexivity. Qed.

(** ** Minimum and maximum tracking of the instrumented relay *)

Section MinMax.
Import RelayInstrumented.



(** X13.  A sample of zero makes [updateMin] forget the minimum: zero reads
    as "no sample yet", so the next sample replaces it, whatever it is. *)
Theorem updateMin_zero_sample_resets (current next : Z) :
  0 ≤ current →
  updateMin current 0 = 0 ∧ updateMin (updateMin current 0) next = next.
Proof.
  intros Hcur. unfold updateMin.
  destruct (Z.eqb_spec current 0) as [-> | Hne]; [done |].
  destruct (Z.leb_spec current 0); [lia | done].
Qed.

Lemma substring_length n (s : string) :
  String.length (substring 0 n s) = Nat.min n (String.length s).
Proof.
  revert n. induction s as [| c s IH]; intros [| n]; cbn; try done.
  by rewrite IH.
Qed.

(** X14.  [truncate] with a limit that is not negative returns the string
    itself when it fits, and otherwise its first [maxLen] bytes followed by
    "..."; the result is never longer than [maxLen + 3]. *)
Theorem truncate_bounded (s : string) (maxLen : Z) :
  0 ≤ maxLen →
  ∃ t, truncate s maxLen = Some t ∧
       Z.of_nat (String.length t) ≤ maxLen + 3 ∧
       substring 0 (Z.to_nat maxLen) t = substring 0 (Z.to_nat maxLen) s ∧
       (Z.of_nat (String.length s) ≤ maxLen → t = s) ∧
       (maxLen < Z.of_nat (String.length s) →
          t = substring 0 (Z.to_nat maxLen) s ++ "...").
Proof.
  intros Hmax. unfold truncate.
  destruct (Z.leb_spec (Z.of_nat (String.length s)) maxLen) as [Hfit | Hlong].
  - exists s. split; [done |]. split; [lia |]. split; [done |].
    split; [done | lia].
  - destruct (Z.ltb_spec maxLen 0); [lia |].
    eexists. split; [done |]. split; [| split; [| split; [lia | done]]].
    + rewrite string_length_app, substring_length. cbn. lia.
    + assert (∀ n (a b : string), String.length a = n →
                substring 0 n (a ++ b) = a) as Hpre.
      { intros n a. revert n. induction a as [| c a IH]; intros n b <-.
        - by destruct b.
        - change (substring 0 (S (String.length a)) (String c (a ++ b)) = String c a).
          cbn [substring]. f_equal. by apply IH. }
      rewrite Hpre; [done |]. rewrite substring_length. lia.
Qed.

End MinMax.


Lemma updateMin_zero_sample_resets_witness :
  RelayInstrumented.updateMin (RelayInstrumented.updateMin 12 0) 99 = 99.
Proof. apply (updateMin_zero_sample_resets 12 99). lia. Defined.

Lemma truncate_bounded_witness :
  RelayInstrumented.truncate "hello, relay" 5 = Some "hello...".
Proof.
  destruct (truncate_bounded "hello, relay" 5) as (t & Ht & _ & _ & _ & Hlong); [lia |].
  rewrite Ht, Hlong; [reflexivity | cbn; lia].
Defined.

(** ** Path patterns *)

Section PathParams.
Import Server.

Example ParsePathParams_tests :
  ParsePathParams "/users/:id" "/users/123" = {["id" := "123"]} ∧
  ParsePathParams "/users/:userId/posts/:postId" "/users/123/posts/456"
    = <["userId" := "123"]> {["postId" := "456"]} ∧
  ParsePathParams "/users/:id" "/posts/123" = ∅ ∧
  ParsePathParams "/users" "/users" = ∅.
Proof. repeat split; vm_compute; reflexivity. Qed.

Lemma HasPrefixByte_true b p :
  Go.HasPrefixByte b p = true → p = String b (Go.TrimPrefixByte b p).
Proof.
  destruct p as [| c p]; [done |]. cbn. case_bool_decide; [by subst | done].
Qed.

Lemma HasPrefixByte_cons b name :
  Go.HasPrefixByte b (String b name) = true ∧
  Go.TrimPrefixByte b (String b name) = name.
Proof. cbn. by rewrite bool_decide_true. Qed.

Lemma matchParts_mismatch ps xs params j p x :
  List.length ps = List.length xs →
  ps !! j = Some p → xs !! j = Some x →
  Go.HasPrefixByte ":" p = false → p ≠ x →
  matchParts ps xs params = ∅.
Proof.
  revert xs params j.
  induction ps as [| p0 ps IH]; intros [| x0 xs] params j Hlen Hp Hx Hlit Hne;
    try done.
  cbn [matchParts]. destruct j as [| j].
  - injection Hp as ->. injection Hx as ->. rewrite Hlit.
    by rewrite bool_decide_true.
  - cbn in Hp, Hx. injection Hlen as Hlen.
    destruct (Go.HasPrefixByte ":" p0); [by eapply IH |].
    case_bool_decide; [done | by eapply IH].
Qed.

Lemma matchParts_unbound ps xs params name :
  List.length ps = List.length xs →
  (∀ j p x, ps !! j = Some p → xs !! j = Some x →
            Go.HasPrefixByte ":" p = false → p = x) →
  (∀ i p, ps !! i = Some p → p ≠ String ":" name) →
  matchParts ps xs params !! name = params !! name.
Proof.
  revert xs params.
  induction ps as [| p0 ps IH]; intros [| x0 xs] params Hlen Hlit Hnone; try done.
  cbn [matchParts]. injection Hlen as Hlen.
  assert (∀ j p x, ps !! j = Some p → xs !! j = Some x →
                   Go.HasPrefixByte ":" p = false → p = x) as Hlit'
    by (intros j; apply (Hlit (S j))).
  assert (∀ i p, ps !! i = Some p → p ≠ String ":" name) as Hnone'
    by (intros i; apply (Hnone (S i))).
  destruct (Go.HasPrefixByte ":" p0) eqn:Hpre.
  - rewrite IH by done. apply lookup_insert_ne.
    intros Heq. apply (Hnone 0%nat p0 eq_refl).
    rewrite (HasPrefixByte_true _ _ Hpre). by rewrite Heq.
  - rewrite bool_decide_false; [by apply IH |].
    intros Hne. apply Hne. by apply (Hlit 0%nat).
Qed.

Lemma matchParts_bound ps xs params name i v :
  List.length ps = List.length xs →
  (∀ j p x, ps !! j = Some p → xs !! j = Some x →
            Go.HasPrefixByte ":" p = false → p = x) →
  ps !! i = Some (String ":" name) → xs !! i = Some v →
  (∀ j p, (i < j)%nat → ps !! j = Some p → p ≠ String ":" name) →
  matchParts ps xs params !! name = Some v.
Proof.
  revert xs params i.
  induction ps as [| p0 ps IH]; intros [| x0 xs] params i Hlen Hlit Hp Hx Hlast;
    try done.
  cbn [matchParts]. injection Hlen as Hlen.
  assert (∀ j p x, ps !! j = Some p → xs !! j = Some x →
                   Go.HasPrefixByte ":" p = false → p = x) as Hlit'
    by (intros j; apply (Hlit (S j))).
  destruct i as [| i].
  - injection Hp as ->. injection Hx as ->.
    destruct (HasPrefixByte_cons ":" name) as [-> ->].
    rewrite matchParts_unbound; [apply lookup_insert_eq | done | done |].
    intros j p Hj. apply (Hlast (S j)); [lia | done].
  - cbn in Hp, Hx.
    assert (∀ j p, (i < j)%nat → ps !! j = Some p → p ≠ String ":" name) as Hlast'
      by (intros j p Hj; apply (Hlast (S j)); lia).
    destruct (Go.HasPrefixByte ":" p0) eqn:Hpre; [by eapply IH |].
    rewrite bool_decide_false; [by eapply IH |].
    intros Hne. apply Hne. by apply (Hlit 0%nat).
Qed.

(** X15.  [ParsePathParams] returns the empty map when pattern and path
    differ in their number of segments, and when a segment of the pattern
    that is no parameter differs from the path's, also when parameters
    before it have matched. *)
Theorem ParsePathParams_no_match pattern path :
  let ps := Go.Split "/" (Go.Trim "/" pattern) in
  let xs := Go.Split "/" (Go.Trim "/" path) in
  (List.length ps ≠ List.length xs ∨
   ∃ j p x, ps !! j = Some p ∧ xs !! j = Some x ∧
            Go.HasPrefixByte ":" p = false ∧ p ≠ x) →
  ParsePathParams pattern path = ∅.
Proof.
  intros ps xs Hno. unfold ParsePathParams. fold ps xs.
  case_bool_decide as Hlen; [done |].
  destruct Hno as [Hno | (j & p & x & Hp & Hx & Hlit & Hne)]; [done |].
  assert (List.length ps = List.length xs) as Heq
    by (destruct (decide (List.length ps = List.length xs)); done).
  exact (matchParts_mismatch ps xs ∅ j p x Heq Hp Hx Hlit Hne).
Qed.

(** X16.  When pattern and path have the same number of segments and
    every segment of the pattern that is no parameter equals the path's,
    [ParsePathParams] binds each parameter name to the path segment under
    its last occurrence in the pattern, and binds no other name. *)
Theorem ParsePathParams_binds pattern path name :
  let ps := Go.Split "/" (Go.Trim "/" pattern) in
  let xs := Go.Split "/" (Go.Trim "/" path) in
  List.length ps = List.length xs →
  (∀ j p x, ps !! j = Some p → xs !! j = Some x →
            Go.HasPrefixByte ":" p = false → p = x) →
  (∀ i v, ps !! i = Some (String ":" name) → xs !! i = Some v →
          (∀ j p, (i < j)%nat → ps !! j = Some p → p ≠ String ":" name) →
          ParsePathParams pattern path !! name = Some v) ∧
  ((∀ i p, ps !! i = Some p → p ≠ String ":" name) →
   ParsePathParams pattern path !! name = None).
Proof.
  intros ps xs Hlen Hlit. unfold ParsePathParams. fold ps xs.
  rewrite bool_decide_false by (by intros ?). split.
  - intros i v Hp Hx Hlast. by eapply matchParts_bound.
  - intros Hnone. by rewrite matchParts_unbound.
Qed.

Lemma TrimRightByte_app b s :
  Go.TrimRightByte b (s ++ String b "") = Go.TrimRightByte b s.
Proof.
  induction s as [| c s IH].
  - change (Go.TrimRightByte b (String b "") = "").
    cbn [Go.TrimRightByte]. by rewrite bool_decide_true.
  - change (Go.TrimRightByte b (String c (s ++ String b "")) = Go.TrimRightByte b (String c s)).
    cbn [Go.TrimRightByte]. by rewrite IH.
Qed.

Lemma TrimLeftByte_app b s :
  Go.TrimLeftByte b (s ++ String b "") = Go.TrimLeftByte b s ++ String b "" ∨
  (Go.TrimLeftByte b (s ++ String b "") = "" ∧ Go.TrimLeftByte b s = "").
Proof.
  induction s as [| c s IH].
  - right. change ("" ++ String b "") with (String b "").
    cbn [Go.TrimLeftByte]. by rewrite bool_decide_true.
  - change (String c s ++ String b "") with (String c (s ++ String b "")).
    cbn [Go.TrimLeftByte]. case_bool_decide; [exact IH | by left].
Qed.

Lemma Trim_slashes b s :
  Go.Trim b (String b s) = Go.Trim b s ∧ Go.Trim b (s ++ String b "") = Go.Trim b s.
Proof.
  unfold Go.Trim. split.
  - cbn [Go.TrimLeftByte]. by rewrite bool_decide_true.
  - destruct (TrimLeftByte_app b s) as [-> | [-> ->]]; [apply TrimRightByte_app | done].
Qed.

(** X17.  A leading or a trailing slash on the pattern or on the path does
    not change the result of [ParsePathParams]. *)
Theorem ParsePathParams_ignores_outer_slashes pattern path :
  ParsePathParams ("/" ++ pattern) path = ParsePathParams pattern path ∧
  ParsePathParams (pattern ++ "/") path = ParsePathParams pattern path ∧
  ParsePathParams pattern ("/" ++ path) = ParsePathParams pattern path ∧
  ParsePathParams pattern (path ++ "/") = ParsePathParams pattern path.
Proof.
  destruct (Trim_slashes "/" pattern) as [Hp1 Hp2].
  destruct (Trim_slashes "/" path) as [Hx1 Hx2].
  unfold ParsePathParams.
  change ("/" ++ pattern) with (String "/" pattern).
  change ("/" ++ path) with (String "/" path).
  by rewrite Hp1, Hp2, Hx1, Hx2.
Qed.

End PathParams.

Lemma ParsePathParams_no_match_witness :
  Server.ParsePathParams "/users/:id/posts" "/users/123/comments" = ∅.
Proof.
  apply (ParsePathParams_no_match "/users/:id/posts" "/users/123/comments").
  right. exists 2%nat, "posts", "comments". repeat split. discriminate.
Defined.

Lemma ParsePathParams_binds_witness :
  Server.ParsePathParams "/users/:id" "/users/123" !! "id" = Some "123".
Proof.
  destruct (ParsePathParams_binds "/users/:id" "/users/123" "id") as [Hbound _].
  - reflexivity.
  - intros j p x Hp Hx Hlit.
    destruct j as [| [| j]]; vm_compute in Hp, Hx; [| | discriminate Hp].
    + injection Hp as <-. by injection Hx as <-.
    + injection Hp as <-. vm_compute in Hlit. discriminate Hlit.
  - apply (Hbound 1%nat "123"); [reflexivity | reflexivity |].
    intros j p Hj Hp.
    destruct j as [| [| j]]; [lia | lia |]. vm_compute in Hp. discriminate Hp.
Defined.
